(** * ol-explorer: the reconciliation layer of the blockchain explorer client

    A shallow embedding of
    - the resource slug mapper and the resource categorisation of
      [src/screens/AccountDetails.tsx],
    - the [useBlockchain] hook ([refreshData]) and the [SearchBar] component
      ([handleSearch]).

    JavaScript strings are sequences of UTF-16 code units.  They are modelled
    by [string], whose characters are the code units below 256 (Latin-1).  All
    string operations used by the program ([split], [includes], [toLowerCase],
    [trim], [replace] with the two regular expressions, concatenation) map
    Latin-1 strings to Latin-1 strings, so the model is closed.

    Asynchronous functions are cut at their [await]s: each piece is a
    function that returns the effects it performs, in order, and a world is
    the result of performing them.  Console output changes no state; it is
    kept only where it is all that a branch does. *)

From Stdlib Require Import List Bool Arith Lia ZArith Ascii String.
From Stdlib Require Import Sorting.Sorted Sorting.Permutation.
Import ListNotations.
Open Scope string_scope.

(** ** JavaScript string primitives *)

Module Js.

(** Code unit of a character. *)
Definition code (c : ascii) : nat := nat_of_ascii c.

(** [String.prototype.toLowerCase] on one Latin-1 code unit: A-Z and the
    accented capitals U+00C0..U+00DE (except the multiplication sign
    U+00D7) move up by 32, everything else is unchanged. *)
Definition toLowerCase_char (c : ascii) : ascii :=
  let n := code c in
  if (((65 <=? n) && (n <=? 90)) ||
      ((192 <=? n) && (n <=? 222) && negb (n =? 215)))%nat
  then ascii_of_nat (n + 32)
  else c.

Fixpoint toLowerCase (s : string) : string :=
  match s with
  | EmptyString => EmptyString
  | String c r => String (toLowerCase_char c) (toLowerCase r)
  end.

(** Whether [sub] occurs in [s] at position 0. *)
Fixpoint startsWith (s sub : string) {struct sub} : bool :=
  match sub with
  | EmptyString => true
  | String a sub' =>
      match s with
      | EmptyString => false
      | String b s' => Ascii.eqb a b && startsWith s' sub'
      end
  end.

(** [s.includes(sub)]. *)
Fixpoint includes (s sub : string) : bool :=
  startsWith s sub ||
  match s with
  | EmptyString => false
  | String _ r => includes r sub
  end.

(** [s.split(sep)] for a non-empty separator [sep]: the leftmost,
    non-overlapping occurrences of [sep] cut [s].  [skip] counts the
    characters of an occurrence that are still to be passed over, [acc] is
    the piece being read. *)
Fixpoint split_go (sep : string) (skip : nat) (acc : string) (s : string)
  : list string :=
  match s with
  | EmptyString => [acc]
  | String c r =>
      match skip with
      | S k => split_go sep k acc r
      | O =>
          if startsWith s sep
          then acc :: split_go sep (String.length sep - 1) EmptyString r
          else split_go sep 0 (acc ++ String c EmptyString) r
      end
  end.

Definition split (sep s : string) : list string := split_go sep 0 EmptyString s.

(** The character class [[A-Z]]. *)
Definition isAsciiUpper (c : ascii) : bool :=
  ((65 <=? code c) && (code c <=? 90))%nat.

(** [s.replace(/([A-Z])/g, '-$1')]. *)
Fixpoint hyphenateCapitals (s : string) : string :=
  match s with
  | EmptyString => EmptyString
  | String c r =>
      if isAsciiUpper c
      then String "-"%char (String c (hyphenateCapitals r))
      else String c (hyphenateCapitals r)
  end.

(** [s.replace(/^-/, '')]. *)
Definition dropLeadingHyphen (s : string) : string :=
  match s with
  | String "-"%char r => r
  | _ => s
  end.

(** White space and line terminators removed by [String.prototype.trim]:
    TAB, LF, VT, FF, CR, SPACE and NBSP. *)
Definition isWhiteSpace (c : ascii) : bool :=
  let n := code c in
  (((9 <=? n) && (n <=? 13)) || (n =? 32) || (n =? 160))%nat.

Fixpoint trimStart (s : string) : string :=
  match s with
  | EmptyString => EmptyString
  | String c r => if isWhiteSpace c then trimStart r else s
  end.

Fixpoint trimEnd (s : string) : string :=
  match s with
  | EmptyString => EmptyString
  | String c r =>
      let r' := trimEnd r in
      if isWhiteSpace c && (r' =? EmptyString) then EmptyString else String c r'
  end.

Definition trim (s : string) : string := trimEnd (trimStart s).

(** Empty, or white space only. *)
Fixpoint isBlank (s : string) : bool :=
  match s with
  | EmptyString => true
  | String c r => isWhiteSpace c && isBlank r
  end.

(** Truthiness of a string: only the empty string is falsy. *)
Definition truthy (s : string) : bool := negb (s =? EmptyString).

(** [Array.from(new Set(l))]: the distinct elements in order of first
    occurrence. *)
Fixpoint uniq_from (seen l : list string) : list string :=
  match l with
  | [] => []
  | x :: r =>
      if existsb (String.eqb x) seen
      then uniq_from seen r
      else x :: uniq_from (x :: seen) r
  end.

Definition arrayFromSet (l : list string) : list string := uniq_from [] l.

(** [value || null] for the result of [Array.prototype.find] over strings. *)
Definition orNull (o : option string) : option string :=
  match o with
  | Some s => if truthy s then Some s else None
  | None => None
  end.

End Js.

(** ** Resource slug mapper ([AccountDetails.tsx], lines 86-174) *)

Definition resourceTypeToSlug (type : string) : string :=
  if type =? "" then ""
  else
    let parts := Js.split "::" type in
    if (List.length parts <? 2)%nat then ""
    else
      let module := Js.toLowerCase (nth (List.length parts - 2) parts "") in
      let typeName := nth (List.length parts - 1) parts "" in
      let typeNameKebab :=
        Js.dropLeadingHyphen (Js.toLowerCase (Js.hyphenateCapitals typeName)) in
      module ++ "-" ++ typeNameKebab.

(** The loop over [uniqueSegments] of the special case for repeated
    segments: the first segment for which [types.find] yields a truthy
    candidate decides. *)
Fixpoint findBySegments (types segments : list string) : option string :=
  match segments with
  | [] => None
  | segment :: rest =>
      match Js.orNull
              (find (fun type =>
                       Js.includes (Js.toLowerCase type) (Js.toLowerCase segment))
                    types) with
      | Some matchingType => Some matchingType
      | None => findBySegments types rest
      end
  end.

(** The special case as a whole: entered when the slug has a hyphen and one
    of its segments occurs twice. *)
Definition repeatedSegmentMatch (types : list string) (slug : string)
  : option string :=
  if Js.includes slug "-" then
    let segments := Js.split "-" slug in
    let uniqueSegments := Js.arrayFromSet segments in
    if (List.length uniqueSegments <? List.length segments)%nat
    then findBySegments types uniqueSegments
    else None
  else None.

(** First try: the loop comparing each candidate's slug with [slug]. *)
Fixpoint exactMatch (types : list string) (slug : string) : option string :=
  match types with
  | [] => None
  | type :: rest =>
      if resourceTypeToSlug type =? slug then Some type else exactMatch rest slug
  end.

Definition isPledgeType (type : string) : bool :=
  Js.includes (Js.toLowerCase type) "pledge" ||
  Js.includes (Js.toLowerCase type) "vouch".

Definition isFeeMakerType (type : string) : bool :=
  Js.includes (Js.toLowerCase type) "fee" &&
  Js.includes (Js.toLowerCase type) "maker".

Definition hasAllKeywords (keywords : list string) (type : string) : bool :=
  forallb (fun kw => Js.includes (Js.toLowerCase type) kw) keywords.

Definition partialMatches (slug type : string) : bool :=
  Js.includes (Js.toLowerCase type) slug ||
  Js.includes slug (Js.toLowerCase type).

(** Final fallback: the loop returning the first partially matching
    candidate. *)
Fixpoint partialMatch (types : list string) (slug : string) : option string :=
  match types with
  | [] => None
  | type :: rest =>
      if partialMatches slug type then Some type else partialMatch rest slug
  end.

Definition slugToResourceType (types : list string) (slug : string)
  : option string :=
  if (slug =? "") || (List.length types =? 0)%nat then None
  else
    match repeatedSegmentMatch types slug with
    | Some matchingType => Some matchingType
    | None =>
        match exactMatch types slug with
        | Some type => Some type
        | None =>
            if slug =? "my-pledges" then Js.orNull (find isPledgeType types)
            else if slug =? "fee-maker" then Js.orNull (find isFeeMakerType types)
            else
              let keywords := Js.split "-" slug in
              match Js.orNull (find (hasAllKeywords keywords) types) with
              | Some matchingType => Some matchingType
              | None => partialMatch types slug
              end
        end
    end.

(** ** Resource categories ([AccountDetails.tsx], lines 692-750) *)

(** [Array.prototype.sort()] without a comparator orders strings by their
    code units; the sort is stable.  Insertion from the right keeps equal
    elements in their order. *)
Fixpoint sortInsert (x : string) (l : list string) : list string :=
  match l with
  | [] => [x]
  | y :: r => if String.leb x y then x :: l else y :: sortInsert x r
  end.

Fixpoint jsSort (l : list string) : list string :=
  match l with
  | [] => []
  | x :: r => sortInsert x (jsSort r)
  end.

(** The chain of [if]/[else if] of the [forEach] body: the category a type
    is given. *)
Definition categoryOf (type : string) : string :=
  let lowerType := Js.toLowerCase type in
  if Js.includes lowerType "receipts" ||
     Js.includes lowerType "fee_maker" ||
     (Js.includes lowerType "account" &&
      negb (Js.includes lowerType "pledge_accounts"))
  then "Account"
  else if Js.includes lowerType "coin" || Js.includes lowerType "wallet"
  then "Assets"
  else if Js.includes lowerType "stake" ||
          Js.includes lowerType "validator" ||
          Js.includes lowerType "jail" ||
          Js.includes lowerType "proof_of_fee"
  then "Validating"
  else if Js.includes lowerType "pledge" ||
          Js.includes lowerType "vouch" ||
          Js.includes lowerType "ancestry"
  then "Social"
  else "Other".









(** ** Promises *)

(** What a [catch] clause can receive: an [Error] object with its message,
    or any other thrown value. *)
Inductive Thrown : Type :=
| ErrorObject (message : string)
| OtherValue.

(** A settled promise. *)
Inductive Settled (A : Type) : Type :=
| Fulfilled (value : A)
| Rejected (reason : Thrown).

Arguments Fulfilled {A} value.
Arguments Rejected {A} reason.

(** The order in which three promises settle, by their indices in the
    array given to [Promise.all]: with [Settle102] the second promise
    settles first, then the first, then the third. *)
Inductive SettleOrder : Type :=
| Settle012 | Settle021 | Settle102 | Settle120 | Settle201 | Settle210.

(** Three things, one for each promise of the array, in the order in which
    the promises settle. *)
Definition inSettleOrder {X : Type} (order : SettleOrder) (a b c : X) : list X :=
  match order with
  | Settle012 => [a; b; c]
  | Settle021 => [a; c; b]
  | Settle102 => [b; a; c]
  | Settle120 => [b; c; a]
  | Settle201 => [c; a; b]
  | Settle210 => [c; b; a]
  end.

Definition rejectionOf {A : Type} (p : Settled A) : option Thrown :=
  match p with
  | Fulfilled _ => None
  | Rejected e => Some e
  end.

(** The reason of the first rejection, the promises being listed in the
    order in which they settle. *)
Fixpoint firstRejection (settled : list (option Thrown)) : option Thrown :=
  match settled with
  | [] => None
  | Some e :: _ => Some e
  | None :: rest => firstRejection rest
  end.

(** [Promise.all] over three promises: rejected as soon as one of them
    rejects, with the reason of that one, the first to reject in time and
    not in the order of the array; fulfilled with the three values when
    none rejects.  (The last line of the inner [match] is never reached: a
    promise that rejects is found by [firstRejection].) *)
Definition promiseAll3 {A B C : Type} (order : SettleOrder)
  (a : Settled A) (b : Settled B) (c : Settled C) : Settled (A * B * C) :=
  match
    firstRejection
      (inSettleOrder order (rejectionOf a) (rejectionOf b) (rejectionOf c))
  with
  | Some e => Rejected e
  | None =>
      match a, b, c with
      | Fulfilled x, Fulfilled y, Fulfilled z => Fulfilled (x, y, z)
      | Rejected e, _, _ | _, Rejected e, _ | _, _, Rejected e => Rejected e
      end
  end.

(** ** The observable store and the [useBlockchain] hook *)

Module Blockchain.

Inductive TxStatus : Type := Success | Failure | Pending.

(** The list-view shape of a transaction, as [SdkContext.tsx] builds it. *)
Record Transaction : Type := {
  hash : string;
  version : Z;
  sender : string;
  sequence_number : Z;
  timestamp : string;
  type : string;
  status : TxStatus;
  gas_used : Z;
  gas_unit_price : Z;
  vm_status : string;
  block_height : Z
}.

(** The stats fields the hook writes; [None] is [null], the value before
    the first refresh. *)
Record Stats : Type := {
  blockHeight : option Z;
  epoch : option Z;
  chainId : option string
}.

Record Store : Type := {
  transactions : list Transaction;
  stats : Stats;
  isLoading : bool;
  error : option string;
  currentLimit : option nat;
  updateCounter : nat
}.

(** The calls [refreshData] makes on [blockchainActions]. *)
Inductive Action : Type :=
| SetLoading (loading : bool)
| SetTransactions (list : list Transaction)
| SetStats (blockHeight epoch : Z) (chainId : string)
| SetError (message : string)
| ForceUpdate.

(** Modelled from the spec: the module [store/blockchainStore] (the store
    and [blockchainActions]) is not among the sources.  Section 4.3 has
    each action replace its own field atomically and whole, leaving the
    other fields as they are; [setStats] is given the three fields the
    hook passes; [forceUpdate] only bumps the counter that
    [useForceUpdate] watches. *)
Definition act (a : Action) (s : Store) : Store :=
  match a with
  | SetLoading b =>
      {| transactions := transactions s; stats := stats s; isLoading := b;
         error := error s; currentLimit := currentLimit s;
         updateCounter := updateCounter s |}
  | SetTransactions l =>
      {| transactions := l; stats := stats s; isLoading := isLoading s;
         error := error s; currentLimit := currentLimit s;
         updateCounter := updateCounter s |}
  | SetStats h e c =>
      {| transactions := transactions s;
         stats := {| blockHeight := Some h; epoch := Some e; chainId := Some c |};
         isLoading := isLoading s; error := error s;
         currentLimit := currentLimit s; updateCounter := updateCounter s |}
  | SetError m =>
      {| transactions := transactions s; stats := stats s;
         isLoading := isLoading s; error := Some m;
         currentLimit := currentLimit s; updateCounter := updateCounter s |}
  | ForceUpdate =>
      {| transactions := transactions s; stats := stats s;
         isLoading := isLoading s; error := error s;
         currentLimit := currentLimit s;
         updateCounter := S (updateCounter s) |}
  end.

(** The methods of the SDK object that [refreshData] calls. *)
Inductive SdkCall : Type :=
| GetTransactions (limit : nat)
| GetLatestBlockHeight
| GetLatestEpoch
| GetChainId.

(** How the SDK answers during one refresh cycle, and the order in which
    the three ledger calls, which are out together, settle. *)
Record Sdk : Type := {
  getTransactions : nat -> Settled (list Transaction);
  getLatestBlockHeight : Settled Z;
  getLatestEpoch : Settled Z;
  getChainId : Settled string;
  ledgerSettleOrder : SettleOrder
}.

(** The React state cells of the hook ([useState]). *)
Record HookState : Type := {
  h_isLoading : bool;
  h_fetchRequested : bool
}.

(** What a [refreshData] closure has captured: [useCallback] rebuilds the
    function when [sdk], [isInitialized], [isLoading] or [fetchRequested]
    change, and each function sees the values of the render that built
    it. *)
Record Closure : Type := {
  c_isInitialized : bool;
  c_isLoading : bool;
  c_fetchRequested : bool
}.

(** The closure a render builds from the state cells of that moment. *)
Definition render (isInitialized : bool) (h : HookState) : Closure :=
  {| c_isInitialized := isInitialized;
     c_isLoading := h_isLoading h;
     c_fetchRequested := h_fetchRequested h |}.

(** The hook in its environment: the store, the state cells, whether the
    component is mounted, whether the polling interval is set, and the SDK
    calls issued so far (oldest first). *)
Record World : Type := {
  store : Store;
  hook : HookState;
  mounted : bool;
  intervalSet : bool;
  sdkCalls : list SdkCall
}.

(** One observable step of [refreshData]. *)
Inductive Effect : Type :=
| SetIsLoading (b : bool)
| SetFetchRequested (b : bool)
| Dispatch (c : SdkCall)
| StoreWrite (a : Action).

Definition perform (w : World) (e : Effect) : World :=
  match e with
  | SetIsLoading b =>
      {| store := store w;
         hook := {| h_isLoading := b;
                    h_fetchRequested := h_fetchRequested (hook w) |};
         mounted := mounted w; intervalSet := intervalSet w;
         sdkCalls := sdkCalls w |}
  | SetFetchRequested b =>
      {| store := store w;
         hook := {| h_isLoading := h_isLoading (hook w);
                    h_fetchRequested := b |};
         mounted := mounted w; intervalSet := intervalSet w;
         sdkCalls := sdkCalls w |}
  | Dispatch c =>
      {| store := store w; hook := hook w;
         mounted := mounted w; intervalSet := intervalSet w;
         sdkCalls := (sdkCalls w ++ [c])%list |}
  | StoreWrite a =>
      {| store := act a (store w); hook := hook w;
         mounted := mounted w; intervalSet := intervalSet w;
         sdkCalls := sdkCalls w |}
  end.

Definition run (es : list Effect) (w : World) : World := fold_left perform es w.

(** [blockchainStore.currentLimit?.get() || appConfig.transactions.defaultLimit];
    the configured default is a parameter, [config/appConfig] being absent
    from the sources. *)
Definition transactionLimit (defaultLimit : nat) (s : Store) : nat :=
  match currentLimit s with
  | Some (S n) => S n
  | _ => defaultLimit
  end.

(** [error instanceof Error ? error.message : 'Unknown error occurred']. *)
Definition messageOf (e : Thrown) : string :=
  match e with
  | ErrorObject message => message
  | OtherValue => "Unknown error occurred"
  end.

(** [catch (error)]. *)
Definition catchBlock (e : Thrown) : list Effect :=
  [StoreWrite (SetError (messageOf e))].

(** [finally]. *)
Definition finallyBlock : list Effect :=
  [SetIsLoading false; SetFetchRequested false; StoreWrite (SetLoading false)].

(** [refreshData] from its call to its first [await]: the two guards, the
    loading flags, the limit read from the store and the call of
    [sdk.getTransactions].  The second component is the limit of the call
    that is now awaited, or [None] when a guard returned. *)
Definition refreshData_begin (defaultLimit : nat) (c : Closure) (s : Store)
  : list Effect * option nat :=
  if negb (c_isInitialized c) then ([], None)
  else if c_isLoading c || c_fetchRequested c then ([], None)
  else
    let currentTransactionLimit :=
      transactionLimit defaultLimit (act (SetLoading true) s) in
    ([SetIsLoading true;
      SetFetchRequested true;
      StoreWrite (SetLoading true);
      Dispatch (GetTransactions currentTransactionLimit)],
     Some currentTransactionLimit).

(** From the settlement of [sdk.getTransactions] to the [Promise.all]. *)
Definition refreshData_afterTransactions (r : Settled (list Transaction))
  : list Effect * bool :=
  match r with
  | Fulfilled txs =>
      ([StoreWrite (SetTransactions txs);
        Dispatch GetLatestBlockHeight;
        Dispatch GetLatestEpoch;
        Dispatch GetChainId],
       true)
  | Rejected e => ((catchBlock e ++ finallyBlock)%list, false)
  end.

(** From the settlement of the [Promise.all] to the end. *)
Definition refreshData_afterStats (r : Settled (Z * Z * string))
  : list Effect :=
  match r with
  | Fulfilled (h, e, c) =>
      ([StoreWrite (SetStats h e c); StoreWrite ForceUpdate] ++ finallyBlock)%list
  | Rejected e => (catchBlock e ++ finallyBlock)%list
  end.

(** All the steps of one call of [refreshData] that nothing interleaves
    with, in order. *)
Definition refreshData_effects (defaultLimit : nat) (sdk : Sdk) (c : Closure)
  (s : Store) : list Effect :=
  match refreshData_begin defaultLimit c s with
  | (first, None) => first
  | (first, Some limit) =>
      match refreshData_afterTransactions (getTransactions sdk limit) with
      | (second, false) => (first ++ second)%list
      | (second, true) =>
          (first ++ second ++
           refreshData_afterStats
             (promiseAll3 (ledgerSettleOrder sdk) (getLatestBlockHeight sdk)
                          (getLatestEpoch sdk) (getChainId sdk)))%list
      end
  end.

Definition refreshData (defaultLimit : nat) (sdk : Sdk) (c : Closure)
  (w : World) : World :=
  run (refreshData_effects defaultLimit sdk c (store w)) w.

(** The callback of [setInterval]: it calls the [refreshData] it captured
    when the effect ran.  A cleared interval fires no more. *)
Definition tick (defaultLimit : nat) (captured : Closure) (w : World)
  : list Effect * option nat :=
  if intervalSet w then refreshData_begin defaultLimit captured (store w)
  else ([], None).

(** Unmounting runs the cleanup of the polling effect, [clearInterval]. *)
Definition unmount (w : World) : World :=
  {| store := store w; hook := hook w; mounted := false;
     intervalSet := false; sdkCalls := sdkCalls w |}.

(** The states the world goes through while [es] run, the starting one
    included. *)
Fixpoint statesAlong (es : list Effect) (w : World) : list World :=
  match es with
  | [] => [w]
  | e :: r => w :: statesAlong r (perform w e)
  end.

End Blockchain.

(** ** [handleRefresh] of the account screen ([AccountDetails.tsx], 392-404) *)

Module AccountScreen.

Inductive Effect : Type :=
| SetIsAutoRefreshing (b : bool)
| CallRefreshAccount
| ConsoleError
| SetTimeout (ms : nat) (callback : Effect).

(** Up to [await refreshAccount()]. *)
Definition handleRefresh_begin : list Effect :=
  [SetIsAutoRefreshing true; CallRefreshAccount].

(** After [refreshAccount()] has settled: the [catch] and the [finally],
    which reads [isMounted.current]. *)
Definition handleRefresh_afterRefresh (r : Settled unit) (isMounted : bool)
  : list Effect :=
  (match r with
   | Fulfilled _ => []
   | Rejected _ => [ConsoleError]
   end ++
   if isMounted then [SetTimeout 500 (SetIsAutoRefreshing false)] else [])%list.

End AccountScreen.

(** ** [handleSearch] of the search bar *)

Module SearchBar.

Record State : Type := {
  searchQuery : string;
  isSearching : bool;
  error : option string
}.

Inductive SdkCall : Type :=
| GetAccount (address : string)
| GetTransactionByHash (hash : string).

Inductive Effect : Type :=
| AnimateButton
| SetIsSearching (b : bool)
| SetError (e : option string)
| SetSearchQuery (q : string)
| RouterPush (path : string)
| Call (c : SdkCall).

Definition perform (st : State) (e : Effect) : State :=
  match e with
  | SetIsSearching b =>
      {| searchQuery := searchQuery st; isSearching := b; error := error st |}
  | SetError m =>
      {| searchQuery := searchQuery st; isSearching := isSearching st; error := m |}
  | SetSearchQuery q =>
      {| searchQuery := q; isSearching := isSearching st; error := error st |}
  | AnimateButton | RouterPush _ | Call _ => st
  end.

Definition sdkCallsOf (es : list Effect) : list SdkCall :=
  flat_map (fun e => match e with Call c => [c] | _ => [] end) es.

Definition navigationsOf (es : list Effect) : list string :=
  flat_map (fun e => match e with RouterPush p => [p] | _ => [] end) es.

Section WithSdk.

(** The results of the two lookups: an object, or [null]. *)
Variables AccountData TransactionDetail : Type.

(** [isValidAddressFormat] of [utils/addressUtils], which is not among
    the sources: a pure predicate, taken as a parameter. *)
Variable isValidAddressFormat : string -> bool.

(** The two SDK methods [handleSearch] calls. *)
Record Sdk : Type := {
  getAccount : string -> Settled (option AccountData);
  getTransactionByHash : string -> Settled (option TransactionDetail)
}.

Variable sdk : Sdk.

Definition catchBlock : list Effect := [SetError (Some "Error performing search")].

(** The transaction lookup and what follows it inside [try]. *)
Definition transactionLookup (query : string) : list Effect :=
  Call (GetTransactionByHash query) ::
  match getTransactionByHash sdk query with
  | Rejected _ => catchBlock
  | Fulfilled (Some _) =>
      [RouterPush ("/tx/" ++ query); SetSearchQuery ""; SetIsSearching false]
  | Fulfilled None =>
      [SetError (Some "No account or transaction found with this identifier")]
  end.

(** The body of [try]. *)
Definition tryBlock (query : string) : list Effect :=
  if isValidAddressFormat query then
    Call (GetAccount query) ::
    match getAccount sdk query with
    | Rejected _ => catchBlock
    | Fulfilled (Some _) =>
        [RouterPush ("/account/" ++ query); SetSearchQuery "";
         SetIsSearching false]
    | Fulfilled None => transactionLookup query
    end
  else transactionLookup query.

Definition handleSearch_effects (st : State) : list Effect :=
  if negb (Js.truthy (Js.trim (searchQuery st))) then []
  else
    ([AnimateButton; SetIsSearching true; SetError None] ++
     tryBlock (Js.trim (searchQuery st)) ++
     [SetIsSearching false])%list.

Definition handleSearch (st : State) : State :=
  fold_left perform (handleSearch_effects st) st.

End WithSdk.

Arguments getAccount {AccountData TransactionDetail} _ _.
Arguments getTransactionByHash {AccountData TransactionDetail} _ _.
Arguments transactionLookup {AccountData TransactionDetail} _ _.
Arguments tryBlock {AccountData TransactionDetail} _ _ _.
Arguments handleSearch_effects {AccountData TransactionDetail} _ _ _.
Arguments handleSearch {AccountData TransactionDetail} _ _ _.

End SearchBar.

(** ** The lookup order of [slugToResourceType], rule by rule

    The order of section 4.2 written as a list of rules, to be compared with
    [slugToResourceType]. *)

(** A rule is a test on a candidate.  [skipsEmpty] marks the rules the code
    runs with [types.find] followed by a truthiness test, where an empty
    string found first counts as nothing found. *)
Record Rule : Type := {
  satisfiedBy : string -> bool;
  skipsEmpty : bool
}.

(** The first candidate, in the order of [types], that passes the test. *)
Fixpoint firstCandidate (test : string -> bool) (types : list string)
  : option string :=
  match types with
  | [] => None
  | t :: rest => if test t then Some t else firstCandidate test rest
  end.

Definition select (r : Rule) (types : list string) : option string :=
  if skipsEmpty r
  then Js.orNull (firstCandidate (satisfiedBy r) types)
  else firstCandidate (satisfiedBy r) types.

(** The result of the first rule, in priority order, that selects a
    candidate. *)
Fixpoint firstByPriority (rules : list Rule) (types : list string)
  : option string :=
  match rules with
  | [] => None
  | r :: rest =>
      match select r types with
      | Some t => Some t
      | None => firstByPriority rest types
      end
  end.

Definition containsSegment (segment type : string) : bool :=
  Js.includes (Js.toLowerCase type) (Js.toLowerCase segment).

Definition hasRepeatedSegment (slug : string) : bool :=
  Js.includes slug "-" &&
  (List.length (Js.arrayFromSet (Js.split "-" slug)) <?
   List.length (Js.split "-" slug))%nat.

(** Duplicated segment: one rule per distinct segment, in order. *)
Definition segmentRules (guarded : bool) (slug : string) : list Rule :=
  if hasRepeatedSegment slug
  then map (fun segment =>
              {| satisfiedBy := containsSegment segment; skipsEmpty := guarded |})
           (Js.arrayFromSet (Js.split "-" slug))
  else [].









(** ** Statements, invariants and sample inputs *)

Import Blockchain.

(** The round trip as section 8 states it, at one type and one candidate
    list. *)
Definition roundTripsAt (type : string) (types : list string) : Prop :=
  Js.includes type "::" = true ->
  In type types ->
  slugToResourceType types (resourceTypeToSlug type) = Some type.

Definition ordered (a b : string) : Prop := String.leb a b = true.




(** A closure that goes past both guards. *)
Definition passesGuards (c : Closure) : Prop :=
  c_isInitialized c = true /\ c_isLoading c = false /\ c_fetchRequested c = false.

Definition emptyStore : Store :=
  {| transactions := []; stats := {| blockHeight := None; epoch := None; chainId := None |};
     isLoading := false; error := None; currentLimit := None; updateCounter := 0 |}.

Definition idleWorld : World :=
  {| store := emptyStore;
     hook := {| h_isLoading := false; h_fetchRequested := false |};
     mounted := true; intervalSet := true; sdkCalls := [] |}.

(** An SDK whose ledger calls succeed and whose [getTransactions] rejects. *)
Definition ledgerOnlySdk : Sdk :=
  {| getTransactions := fun _ => Rejected (ErrorObject "Network Error");
     getLatestBlockHeight := Fulfilled 500000%Z;
     getLatestEpoch := Fulfilled 42%Z;
     getChainId := Fulfilled "1";
     ledgerSettleOrder := Settle012 |}.

(** The scenario of section 8 at one SDK, closure and world: the ledger
    calls succeed, [getTransactions] rejects, and the cycle is said to end
    with the stats updated, the transactions unchanged and an error
    recorded. *)
Definition statsUpdatedWhenTransactionsReject
  (defaultLimit : nat) (sdk : Sdk) (c : Closure) (w : World) : Prop :=
  forall e h ep cid,
    passesGuards c ->
    getTransactions sdk (transactionLimit defaultLimit (store w)) = Rejected e ->
    getLatestBlockHeight sdk = Fulfilled h ->
    getLatestEpoch sdk = Fulfilled ep ->
    getChainId sdk = Fulfilled cid ->
    let w' := refreshData defaultLimit sdk c w in
    stats (store w') =
      {| blockHeight := Some h; epoch := Some ep; chainId := Some cid |} /\
    transactions (store w') = transactions (store w) /\
    error (store w') <> None.

(** The ordering guarantee of section 5 at one SDK, closure and world:
    the cycle writes the store once, all fields together, so that every
    state the store goes through shows the transactions and the stats from
    before the cycle or those the cycle ends with. *)
Definition cycleWriteAtomic
  (defaultLimit : nat) (sdk : Sdk) (c : Closure) (w : World) : Prop :=
  forall w',
    In w' (statesAlong (refreshData_effects defaultLimit sdk c (store w)) w) ->
    (transactions (store w') = transactions (store w) /\
     stats (store w') = stats (store w)) \/
    (transactions (store w') =
       transactions (store (refreshData defaultLimit sdk c w)) /\
     stats (store w') = stats (store (refreshData defaultLimit sdk c w))).

(** The steps of a cycle up to the [await] of the [Promise.all], when
    [getTransactions] has answered [txs]. *)
Definition untilLedgerAwait (limit : nat) (txs : list Transaction) : list Effect :=
  [SetIsLoading true; SetFetchRequested true; StoreWrite (SetLoading true);
   Dispatch (GetTransactions limit);
   StoreWrite (SetTransactions txs);
   Dispatch GetLatestBlockHeight; Dispatch GetLatestEpoch; Dispatch GetChainId].

(** The world once a call of [refreshData] through [c] is waiting for
    [getTransactions]. *)
Definition inFlight (defaultLimit : nat) (c : Closure) (w : World) : World :=
  run (fst (refreshData_begin defaultLimit c (store w))) w.

(** Section 5 at one world and one response: a response that arrives for an
    unmounted consumer leaves the store as it is. *)
Definition lateResponseDiscarded (w : World) (r : Settled (list Transaction))
  : Prop :=
  mounted w = false ->
  store (run (fst (refreshData_afterTransactions r)) w) = store w.

Definition sampleTransaction : Transaction :=
  {| hash := "0xcf4776b92c291291e0ee31107ab5984acba3f3ed5a76b5406d8dcf22d1834d18";
     version := 1000; sender := "0x1"; sequence_number := 7;
     timestamp := "1743775134"; type := "user_transaction"; status := Success;
     gas_used := 12; gas_unit_price := 100; vm_status := "Executed successfully";
     block_height := 500000 |}.

Definition noAccountSdk : SearchBar.Sdk unit unit :=
  {| SearchBar.getAccount := fun _ => Fulfilled None;
     SearchBar.getTransactionByHash := fun _ => Fulfilled None |}.

(** * More of the account screen ([AccountDetails.tsx]) *)

(** ** [formatUrlSlug] and [getSimplifiedType] (lines 54-84) *)

Definition formatUrlSlug (typeName : string) : string :=
  if typeName =? "" then ""
  else
    let parts := Js.split "::" typeName in
    let lastPart := nth (List.length parts - 1) parts "" in
    Js.trim (Js.dropLeadingHyphen (Js.toLowerCase (Js.hyphenateCapitals lastPart))).

Definition getSimplifiedType (fullType : string) : string :=
  if fullType =? "" then ""
  else
    let parts := Js.split "::" fullType in
    if (List.length parts <? 2)%nat then formatUrlSlug fullType
    else
      let module := Js.toLowerCase (nth (List.length parts - 2) parts "") in
      let typeName := nth (List.length parts - 1) parts "" in
      module ++ "-" ++ formatUrlSlug typeName.

(** ** The resource type index (lines 407-468 and 884-903) *)

(** The longest prefix of [s] whose characters pass [test], and the rest. *)
Fixpoint span (test : ascii -> bool) (s : string) : string * string :=
  match s with
  | EmptyString => (EmptyString, EmptyString)
  | String c r =>
      if test c
      then let (taken, rest) := span test r in (String c taken, rest)
      else (EmptyString, s)
  end.

Fixpoint dropChars (n : nat) (s : string) : string :=
  match n, s with
  | S k, String _ r => dropChars k r
  | _, _ => s
  end.

Definition notColon (c : ascii) : bool := negb (Ascii.eqb c ":"%char).
Definition notAngle (c : ascii) : bool := negb (Ascii.eqb c "<"%char).

(** The regular expression [/::([^:]+)::([^<]+)/] tried at the start of
    [s].  Both classes are greedy; a shorter run of [[^:]] would be followed
    by a character that is not a colon, so the longest run is the only one
    that can be followed by ["::"], and the last group takes all it can. *)
Definition matchTypeHere (s : string) : option (string * string) :=
  if Js.startsWith s "::" then
    let (module, afterModule) := span notColon (dropChars 2 s) in
    if module =? "" then None
    else if Js.startsWith afterModule "::" then
      let (typeName, _) := span notAngle (dropChars 2 afterModule) in
      if typeName =? "" then None else Some (module, typeName)
    else None
  else None.

(** [typeStr.match(/::([^:]+)::([^<]+)/)]: the leftmost match, as the two
    groups. *)
Fixpoint matchType (s : string) : option (string * string) :=
  match matchTypeHere s with
  | Some groups => Some groups
  | None =>
      match s with
      | EmptyString => None
      | String _ r => matchType r
      end
  end.

(** What one resource adds to the set of types: [module::typeName] from the
    regular expression, or else the last two parts of the split. *)
Definition typeKey (typeStr : string) : option string :=
  match matchType typeStr with
  | Some (module, typeName) => Some (module ++ "::" ++ typeName)
  | None =>
      let parts := Js.split "::" typeStr in
      if (2 <=? List.length parts)%nat
      then Some (nth (List.length parts - 2) parts "" ++ "::" ++
                 nth (List.length parts - 1) parts "")
      else None
  end.

(** A resource is given by its [type]: [None] stands for a resource without
    a [type], or with a falsy one, which adds nothing. *)
Definition keysOf (resource : option string) : list string :=
  match resource with
  | Some typeStr =>
      match typeKey typeStr with
      | Some key => [key]
      | None => []
      end
  | None => []
  end.

(** [Array.from(types).sort()] after the [forEach] that fills the set. *)
Definition resourceTypesOf (resources : list (option string)) : list string :=
  jsSort (Js.arrayFromSet (flat_map keysOf resources)).


(** The resources shown for the active type (lines 586-624): those whose
    [type] contains it. *)
Definition activeResourcesOf (activeResourceType : option string)
  (resources : list (option string)) : list (option string) :=
  match Js.orNull activeResourceType with
  | None => []
  | Some active =>
      filter (fun resource =>
                match resource with
                | Some typeStr => Js.includes typeStr active
                | None => false
                end)
             resources
  end.

(** * The SDK provider ([SdkContext.tsx]) *)

Module SdkContext.

(** Which object [setSdk] was given. *)
Inductive SdkKind : Type := RealSdk | MockSdk.

(** The state cells of the provider; [error] holds the message of the
    [Error] object, [None] for [null]. *)
Record State : Type := {
  sdk : option SdkKind;
  isInitialized : bool;
  isInitializing : bool;
  error : option string;
  isUsingMockData : bool;
  sdkClient : option SdkKind
}.

(** What a call of [initializeSdk] meets: whether [new LibraClient] throws,
    how [client.getLedgerInfo()] settles, whether [createMockLibraClient]
    throws, and [sdkConfig.debugMode] ([config/sdkConfig] is not among the
    sources). *)
Record Environment : Type := {
  construction : option Thrown;
  ledgerInfo : Settled unit;
  mockCreation : option Thrown;
  debugMode : bool
}.

(** The flags a closure of [initializeSdk] has captured: the function is
    rebuilt by every render and sees the state of that render. *)
Record Closure : Type := {
  c_isInitializing : bool;
  c_isInitialized : bool
}.

Definition render (st : State) : Closure :=
  {| c_isInitializing := isInitializing st; c_isInitialized := isInitialized st |}.

Inductive Effect : Type :=
| SetSdk (s : option SdkKind)
| SetIsInitialized (b : bool)
| SetIsInitializing (b : bool)
| SetError (e : option string)
| SetIsUsingMockData (b : bool)
| SetSdkClient (c : SdkKind)
| ConstructClient
| GetLedgerInfo
| CreateMockClient.

Definition perform (st : State) (e : Effect) : State :=
  match e with
  | SetSdk s =>
      {| sdk := s; isInitialized := isInitialized st;
         isInitializing := isInitializing st; error := error st;
         isUsingMockData := isUsingMockData st; sdkClient := sdkClient st |}
  | SetIsInitialized b =>
      {| sdk := sdk st; isInitialized := b;
         isInitializing := isInitializing st; error := error st;
         isUsingMockData := isUsingMockData st; sdkClient := sdkClient st |}
  | SetIsInitializing b =>
      {| sdk := sdk st; isInitialized := isInitialized st;
         isInitializing := b; error := error st;
         isUsingMockData := isUsingMockData st; sdkClient := sdkClient st |}
  | SetError e =>
      {| sdk := sdk st; isInitialized := isInitialized st;
         isInitializing := isInitializing st; error := e;
         isUsingMockData := isUsingMockData st; sdkClient := sdkClient st |}
  | SetIsUsingMockData b =>
      {| sdk := sdk st; isInitialized := isInitialized st;
         isInitializing := isInitializing st; error := error st;
         isUsingMockData := b; sdkClient := sdkClient st |}
  | SetSdkClient c =>
      {| sdk := sdk st; isInitialized := isInitialized st;
         isInitializing := isInitializing st; error := error st;
         isUsingMockData := isUsingMockData st; sdkClient := Some c |}
  | ConstructClient | GetLedgerInfo | CreateMockClient => st
  end.

Definition run (es : list Effect) (st : State) : State := fold_left perform es st.

(** [err instanceof Error ? err : new Error(fallback)], as a message. *)
Definition errorOr (fallback : string) (err : Thrown) : string :=
  match err with
  | ErrorObject message => message
  | OtherValue => fallback
  end.

(** The [catch (err)] clause of [initializeSdk]. *)
Definition catchClause (env : Environment) (err : Thrown) : list Effect :=
  if debugMode env then
    CreateMockClient ::
    match mockCreation env with
    | None =>
        [SetSdkClient MockSdk; SetSdk (Some MockSdk); SetIsInitialized true;
         SetIsUsingMockData true;
         SetError (Some (errorOr "Using mock data in debug mode" err))]
    | Some mockErr =>
        [SetError (Some (errorOr "Failed to create mock SDK" mockErr))]
    end
  else [SetError (Some (errorOr "Failed to initialize SDK" err))].

(** All the steps of one call of [initializeSdk] (lines 49-332), in
    order. *)
Definition initializeSdk_effects (env : Environment) (c : Closure)
  : list Effect :=
  if c_isInitializing c || c_isInitialized c then []
  else
    ([SetIsInitializing true; SetError None; SetIsUsingMockData false] ++
     ConstructClient ::
     match construction env with
     | Some err => catchClause env err
     | None =>
         SetSdkClient RealSdk :: GetLedgerInfo ::
         match ledgerInfo env with
         | Fulfilled _ => [SetSdk (Some RealSdk); SetIsInitialized true]
         | Rejected err => catchClause env err
         end
     end ++
     [SetIsInitializing false])%list.

Definition initializeSdk (env : Environment) (c : Closure) (st : State) : State :=
  run (initializeSdk_effects env c) st.

(** [reinitialize] (lines 369-373); it calls the [initializeSdk] of its own
    render. *)
Definition reinitialize_effects (env : Environment) (c : Closure)
  : list Effect :=
  ([SetIsInitialized false; SetSdk None] ++ initializeSdk_effects env c)%list.

Definition reinitialize (env : Environment) (c : Closure) (st : State) : State :=
  run (reinitialize_effects env c) st.

(** The condition under which the retry effect (lines 352-366) sets its
    timer. *)
Definition schedulesRetry (retryOnFailure : bool) (st : State) : bool :=
  negb (isInitializing st) && negb (isInitialized st) &&
  match error st with Some _ => true | None => false end &&
  retryOnFailure.

Definition constructions (es : list Effect) : nat :=
  List.length (filter (fun e => match e with ConstructClient => true | _ => false end) es).

Section Wrappers.

(** The transaction the client returns and the object built from it.
    [toDetail] is the object literal of lines 134-158; it gives [None] when
    building it throws. *)
Variables RawTransaction TransactionDetail : Type.
Variable toDetail : RawTransaction -> option TransactionDetail.

(** [normalizeTransactionHash] of [utils/addressUtils], which is not among
    the sources. *)
Variable normalizeTransactionHash : string -> option string.

Variable clientGetTransactionByHash : string -> Settled (option RawTransaction).

(** [getTransactionByHash] of the SDK object (lines 112-163): its result,
    and the hashes the client was asked for. *)
Definition getTransactionByHash (hash : string)
  : Settled (option TransactionDetail) * list string :=
  match Js.orNull (normalizeTransactionHash hash) with
  | None => (Fulfilled None, [])
  | Some normalizedHash =>
      (match clientGetTransactionByHash normalizedHash with
       | Fulfilled (Some tx) => Fulfilled (toDetail tx)
       | Fulfilled None => Fulfilled None
       | Rejected _ => Fulfilled None
       end,
       [normalizedHash])
  end.

End Wrappers.

End SdkContext.

(** * Polling of the account screen ([AccountDetails.tsx], lines 537-583) *)

Module Polling.

(** [refreshTimerRef.current], the intervals and time-outs that are set,
    the next timer handle, and the state [isAutoRefreshing]. *)
Record State : Type := {
  refreshTimerRef : option nat;
  liveIntervals : list nat;
  pendingTimeouts : list nat;
  nextTimer : nat;
  isAutoRefreshing : bool
}.

(** [startPolling]: when no timer is kept and the screen has focus and an
    address, it sets the time-out of the immediate refresh and the
    interval, and keeps the interval. *)
Definition startPolling (isFocused hasAddress : bool) (st : State) : State :=
  match refreshTimerRef st with
  | None =>
      if isFocused && hasAddress then
        {| refreshTimerRef := Some (S (nextTimer st));
           liveIntervals := (liveIntervals st ++ [S (nextTimer st)])%list;
           pendingTimeouts := (pendingTimeouts st ++ [nextTimer st])%list;
           nextTimer := S (S (nextTimer st));
           isAutoRefreshing := false |}
      else st
  | Some _ => st
  end.

(** [clearInterval(timer)]. *)
Definition clearInterval (timer : nat) (intervals : list nat) : list nat :=
  filter (fun t => negb (t =? timer)%nat) intervals.

(** [stopPolling]. *)
Definition stopPolling (st : State) : State :=
  match refreshTimerRef st with
  | Some timer =>
      {| refreshTimerRef := None;
         liveIntervals := clearInterval timer (liveIntervals st);
         pendingTimeouts := pendingTimeouts st;
         nextTimer := nextTimer st;
         isAutoRefreshing := false |}
  | None => st
  end.

(** What happens to the polling effect: it runs with the focus and the
    address of a render, or its cleanup runs. *)
Inductive Event : Type :=
| EffectRuns (isFocused hasAddress : bool)
| Cleanup.

Definition step (st : State) (e : Event) : State :=
  match e with
  | EffectRuns isFocused hasAddress =>
      if isFocused && hasAddress
      then startPolling isFocused hasAddress st
      else stopPolling st
  | Cleanup => stopPolling st
  end.

Definition mountedScreen (firstTimer : nat) : State :=
  {| refreshTimerRef := None; liveIntervals := []; pendingTimeouts := [];
     nextTimer := firstTimer; isAutoRefreshing := false |}.

(** The interval the ref keeps is the only one that is set. *)
Definition tidy (st : State) : Prop :=
  liveIntervals st =
    match refreshTimerRef st with Some timer => [timer] | None => [] end.

End Polling.

(** * [unwrapObservable] ([AccountDetails.tsx], lines 179-246) *)

Module Observable.

Section Values.

(** A value whose [typeof] is not ['object']: a boolean, a number, a
    string. *)
Variable Primitive : Type.

(** The values the store and the SDK deliver: plain data, in which an
    object with a [get] method, an observable, can stand for any value.
    [get] is [None] when calling it throws.  An object is given by its own
    enumerable properties in the order [for ... in] visits them.  Objects
    whose constructor is named [Proxy], which the function treats apart, are
    not among these values. *)
#[warnings="-register-all"] Inductive Value : Type :=
| Undefined
| Null
| Prim (p : Primitive)
| Observable (get : option Value)
| Arr (items : list Value)
| Obj (fields : list (string * Value)).

Fixpoint unwrapObservable (value : Value) : Value :=
  match value with
  | Undefined | Null | Prim _ => value
  | Observable (Some unwrappedValue) => unwrapObservable unwrappedValue
  | Observable None => value
  | Arr items => Arr (map unwrapObservable items)
  | Obj fields =>
      Obj (map (fun field : string * Value =>
                  let (key, v) := field in (key, unwrapObservable v))
               fields)
  end.

(** No observable whose [get] answers is left in the value. *)
Fixpoint unwrapped (value : Value) : bool :=
  match value with
  | Undefined | Null | Prim _ => true
  | Observable (Some _) => false
  | Observable None => true
  | Arr items => forallb unwrapped items
  | Obj fields =>
      forallb (fun field : string * Value => let (_, v) := field in unwrapped v)
              fields
  end.

(** [getObservableValue]: [unwrapObservable(value) ?? defaultValue]. *)
Definition getObservableValue (value defaultValue : Value) : Value :=
  match unwrapObservable value with
  | Undefined | Null => defaultValue
  | v => v
  end.

End Values.

Arguments Undefined {Primitive}.
Arguments Null {Primitive}.
Arguments Prim {Primitive} p.
Arguments Observable {Primitive} get.
Arguments Arr {Primitive} items.
Arguments Obj {Primitive} fields.
Arguments unwrapObservable {Primitive} value.
Arguments unwrapped {Primitive} value.
Arguments getObservableValue {Primitive} value defaultValue.

End Observable.

(** * The transactions list *)

(** [s.endsWith(suffix)]. *)
Fixpoint endsWith (s suffix : string) : bool :=
  (s =? suffix) ||
  match s with
  | EmptyString => false
  | String _ r => endsWith r suffix
  end.

(** [s.replace(sub, '')] with a string pattern: the first occurrence of
    [sub] is taken out. *)
Fixpoint removeFirst (sub s : string) : string :=
  if Js.startsWith s sub then dropChars (String.length sub) s
  else
    match s with
    | EmptyString => EmptyString
    | String c r => String c (removeFirst sub r)
    end.

(** [getFunctionLabel]: every case of the [switch] returns [type]. *)
Definition getFunctionLabel (type : string) : string :=
  if endsWith type "_transaction"
  then removeFirst "_transaction" type
  else type.

(** * The border of a resource card ([AccountDetails.tsx], lines 1023-1041) *)

(** The colour of the left border, chosen from the lower-cased type of the
    resource. *)
Definition borderColorOf (type : string) : string :=
  let typeStr := Js.toLowerCase type in
  if Js.includes typeStr "coin" || Js.includes typeStr "wallet"
  then "border-green-600"
  else if Js.includes typeStr "stake" ||
          Js.includes typeStr "validator" ||
          Js.includes typeStr "jail" ||
          Js.includes typeStr "proof_of_fee"
  then "border-blue-600"
  else if Js.includes typeStr "pledge" ||
          Js.includes typeStr "vouch" ||
          Js.includes typeStr "ancestry"
  then "border-purple-600"
  else if Js.includes typeStr "receipts" ||
          Js.includes typeStr "fee_maker" ||
          (Js.includes typeStr "account" &&
           negb (Js.includes typeStr "pledge_accounts"))
  then "border-yellow-600"
  else "border-gray-600".

(** The category each colour stands for, as the comments beside the colours
    name it. *)
Definition categoryOfBorder (color : string) : string :=
  if color =? "border-green-600" then "Assets"
  else if color =? "border-blue-600" then "Validating"
  else if color =? "border-purple-600" then "Social"
  else if color =? "border-yellow-600" then "Account"
  else "Other".

(** The test of the Account rule, and the tests of the three other rules
    taken together. *)
Definition accountRule (type : string) : bool :=
  let lowerType := Js.toLowerCase type in
  Js.includes lowerType "receipts" ||
  Js.includes lowerType "fee_maker" ||
  (Js.includes lowerType "account" &&
   negb (Js.includes lowerType "pledge_accounts")).

Definition otherRules (type : string) : bool :=
  let lowerType := Js.toLowerCase type in
  (Js.includes lowerType "coin" || Js.includes lowerType "wallet") ||
  (Js.includes lowerType "stake" || Js.includes lowerType "validator" ||
   Js.includes lowerType "jail" || Js.includes lowerType "proof_of_fee") ||
  (Js.includes lowerType "pledge" || Js.includes lowerType "vouch" ||
   Js.includes lowerType "ancestry").

(** * More invariants and sample inputs *)

(** No occurrence of [sep] in [acc ++ s] starts inside [acc]. *)
Definition cleanSoFar (sep acc s : string) : Prop :=
  forall a1 a2, acc = a1 ++ a2 -> a2 <> "" -> Js.startsWith (a2 ++ s) sep = false.

Definition accountOnlySdk : SearchBar.Sdk unit unit :=
  {| SearchBar.getAccount := fun _ => Fulfilled (Some tt);
     SearchBar.getTransactionByHash := fun _ => Rejected OtherValue |}.

Definition addressQuery : SearchBar.State :=
  {| SearchBar.searchQuery := " 9A710919B1A1E67EDA335269C0085C91 ";
     SearchBar.isSearching := false; SearchBar.error := None |}.

Definition healthySdk : Sdk :=
  {| getTransactions := fun _ => Fulfilled [sampleTransaction];
     getLatestBlockHeight := Fulfilled 500000%Z;
     getLatestEpoch := Fulfilled 42%Z;
     getChainId := Fulfilled "1";
     ledgerSettleOrder := Settle012 |}.

Definition failedWorld : World :=
  {| store := {| transactions := []; stats := stats emptyStore;
                 isLoading := false; error := Some "Network Error";
                 currentLimit := Some 50; updateCounter := 3 |};
     hook := {| h_isLoading := false; h_fetchRequested := false |};
     mounted := true; intervalSet := true; sdkCalls := [] |}.

(** An SDK two of whose ledger calls reject, the second of the array
    before the first. *)
Definition noLedgerSdk : Sdk :=
  {| getTransactions := fun _ => Fulfilled [sampleTransaction];
     getLatestBlockHeight := Rejected (ErrorObject "Network Error");
     getLatestEpoch := Rejected (ErrorObject "timeout");
     getChainId := Fulfilled "1";
     ledgerSettleOrder := Settle102 |}.

Definition unreachableNode : SdkContext.Environment :=
  {| SdkContext.construction := None;
     SdkContext.ledgerInfo := Rejected (ErrorObject "Failed to fetch");
     SdkContext.mockCreation := None;
     SdkContext.debugMode := true |}.

Definition freshProvider : SdkContext.State :=
  {| SdkContext.sdk := None; SdkContext.isInitialized := false;
     SdkContext.isInitializing := false; SdkContext.error := None;
     SdkContext.isUsingMockData := false; SdkContext.sdkClient := None |}.

Definition connectedProvider : SdkContext.State :=
  {| SdkContext.sdk := Some SdkContext.RealSdk; SdkContext.isInitialized := true;
     SdkContext.isInitializing := false; SdkContext.error := None;
     SdkContext.isUsingMockData := false;
     SdkContext.sdkClient := Some SdkContext.RealSdk |}.

(** * Properties *)

(** ** Lists and strings *)

Lemma find_some_in (test : string -> bool) (l : list string) (t : string) :
  find test l = Some t -> In t l.
Proof.
  intro H. apply find_some in H. tauto.
Qed.

Lemma orNull_some (o : option string) (t : string) :
  Js.orNull o = Some t -> o = Some t.
Proof.
  destruct o as [s|]; simpl; [|discriminate].
  destruct (Js.truthy s); congruence.
Qed.

Lemma firstCandidate_find (test : string -> bool) (l : list string) :
  firstCandidate test l = find test l.
Proof.
  induction l as [|x l IH]; simpl; [reflexivity|].
  destruct (test x); auto.
Qed.

(** [firstCandidate] is the first match in input order. *)
Lemma firstCandidate_first (test : string -> bool) (l : list string) (t : string) :
  firstCandidate test l = Some t <->
  exists pre post,
    l = (pre ++ t :: post)%list /\ test t = true /\
    forall x, In x pre -> test x = false.
Proof.
  split.
  - induction l as [|x l IH]; simpl; [discriminate|].
    destruct (test x) eqn:Hx.
    + intros [= ->]. exists [], l. simpl. tauto.
    + intros H. destruct (IH H) as (pre & post & -> & Ht & Hpre).
      exists (x :: pre), post. simpl. repeat split; auto.
      intros y [<-|Hy]; auto.
  - intros (pre & post & -> & Ht & Hpre).
    induction pre as [|x pre IH]; simpl.
    + now rewrite Ht.
    + rewrite (Hpre x (or_introl eq_refl)). apply IH.
      intros y Hy. apply Hpre. now right.
Qed.



Lemma split_go_nonempty (sep : string) (s : string) :
  forall skip acc, 1 <= List.length (Js.split_go sep skip acc s).
Proof.
  induction s as [|c r IH]; intros skip acc; cbn [Js.split_go].
  - simpl. lia.
  - destruct skip as [|k].
    + destruct (Js.startsWith (String c r) sep); [|apply IH].
      cbn [List.length]. lia.
    + apply IH.
Qed.

(** A string that contains the separator splits into two parts at least. *)
Lemma split_includes (sep s : string) :
  sep <> "" -> Js.includes s sep = true -> 2 <= List.length (Js.split sep s).
Proof.
  intros Hsep. unfold Js.split. generalize "" as acc.
  induction s as [|c r IH]; intros acc H.
  - simpl in H. destruct sep; [congruence|discriminate].
  - cbn [Js.split_go]. cbn [Js.includes] in H.
    destruct (Js.startsWith (String c r) sep) eqn:Hp.
    + cbn [List.length].
      pose proof (split_go_nonempty sep r (String.length sep - 1) "").
      lia.
    + apply IH. exact H.
Qed.

Lemma append_hyphen_nonempty (a b : string) : (a ++ "-" ++ b =? "") = false.
Proof.
  destruct a; reflexivity.
Qed.

Lemma includes_append_hyphen (a b : string) :
  Js.includes (a ++ "-" ++ b) "-" = true.
Proof.
  induction a as [|c a IH].
  - reflexivity.
  - change (String c a ++ "-" ++ b) with (String c (a ++ "-" ++ b)).
    cbn [Js.includes]. rewrite IH. apply orb_true_r.
Qed.

(** The slug of a type with a module part is the lower-cased module, a
    hyphen, and the type name in kebab case. *)
Lemma resourceTypeToSlug_shape (type : string) :
  Js.includes type "::" = true ->
  exists module kebab, resourceTypeToSlug type = module ++ "-" ++ kebab.
Proof.
  intros H. unfold resourceTypeToSlug.
  destruct (type =? "") eqn:He.
  - apply String.eqb_eq in He. subst. discriminate.
  - pose proof (split_includes "::" type ltac:(discriminate) H) as Hl.
    apply Nat.ltb_ge in Hl. rewrite Hl. eauto.
Qed.

Lemma exactMatch_firstCandidate (types : list string) (slug : string) :
  exactMatch types slug = firstCandidate (fun t => resourceTypeToSlug t =? slug) types.
Proof.
  induction types as [|t l IH]; simpl; [reflexivity|].
  destruct (resourceTypeToSlug t =? slug); auto.
Qed.

Lemma partialMatch_firstCandidate (types : list string) (slug : string) :
  partialMatch types slug = firstCandidate (partialMatches slug) types.
Proof.
  induction types as [|t l IH]; simpl; [reflexivity|].
  destruct (partialMatches slug t); auto.
Qed.

Lemma findBySegments_rules (types segments : list string) :
  findBySegments types segments =
  firstByPriority
    (map (fun segment =>
            {| satisfiedBy := containsSegment segment; skipsEmpty := true |})
         segments)
    types.
Proof.
  induction segments as [|seg l IH]; simpl; [reflexivity|].
  unfold select; simpl. rewrite firstCandidate_find.
  unfold containsSegment at 1.
  destruct (Js.orNull _); auto.
Qed.

Lemma repeatedSegmentMatch_rules (types : list string) (slug : string) :
  repeatedSegmentMatch types slug = firstByPriority (segmentRules true slug) types.
Proof.
  unfold repeatedSegmentMatch, segmentRules, hasRepeatedSegment.
  destruct (Js.includes slug "-"); simpl; [|reflexivity].
  destruct (_ <? _)%nat; [apply findBySegments_rules|reflexivity].
Qed.

(** ** Substrings *)

Lemma string_app_assoc (a b c : string) : (a ++ b) ++ c = a ++ (b ++ c).
Proof.
  induction a as [|x a IH]; simpl; [reflexivity|now rewrite IH].
Qed.

Lemma string_app_nil_r (a : string) : a ++ "" = a.
Proof.
  induction a as [|x a IH]; simpl; [reflexivity|now rewrite IH].
Qed.

Lemma startsWith_prefix (s sub : string) :
  Js.startsWith s sub = true <-> exists rest, s = sub ++ rest.
Proof.
  revert s. induction sub as [|a sub IH]; intros s; simpl.
  - split; [intros _; now exists s|reflexivity].
  - destruct s as [|b s].
    + split; [discriminate|intros (rest & H); discriminate].
    + rewrite andb_true_iff, Ascii.eqb_eq, IH. split.
      * intros (-> & rest & ->). now exists rest.
      * intros (rest & [= -> ->]). split; [reflexivity|now exists rest].
Qed.

(** [includes] finds exactly the substrings. *)
Lemma includes_substring (s sub : string) :
  Js.includes s sub = true <-> exists before rest, s = before ++ sub ++ rest.
Proof.
  induction s as [|c s IH]; cbn [Js.includes].
  - rewrite orb_false_r, startsWith_prefix. split.
    + intros (rest & H). now exists "", rest.
    + intros (before & rest & H). destruct before; [now exists rest|discriminate].
  - rewrite orb_true_iff, startsWith_prefix, IH. split.
    + intros [(rest & H)|(before & rest & ->)].
      * now exists "", rest.
      * now exists (String c before), rest.
    + intros ([|x before] & rest & H).
      * left. now exists rest.
      * right. injection H as -> ->. now exists before, rest.
Qed.

Lemma includes_trans (a b c : string) :
  Js.includes a b = true -> Js.includes b c = true -> Js.includes a c = true.
Proof.
  rewrite !includes_substring.
  intros (p & q & ->) (p' & q' & ->).
  exists (p ++ p'), (q' ++ q). now rewrite !string_app_assoc.
Qed.

Lemma toLowerCase_app (a b : string) :
  Js.toLowerCase (a ++ b) = Js.toLowerCase a ++ Js.toLowerCase b.
Proof.
  induction a as [|x a IH]; simpl; [reflexivity|now rewrite IH].
Qed.

Lemma toLowerCase_char_idempotent (c : ascii) :
  Js.toLowerCase_char (Js.toLowerCase_char c) = Js.toLowerCase_char c.
Proof.
  destruct c as [[] [] [] [] [] [] [] []]; reflexivity.
Qed.

Lemma toLowerCase_idempotent (s : string) :
  Js.toLowerCase (Js.toLowerCase s) = Js.toLowerCase s.
Proof.
  induction s as [|c s IH]; simpl; [reflexivity|].
  now rewrite toLowerCase_char_idempotent, IH.
Qed.

Lemma includes_toLowerCase (s sub : string) :
  Js.includes s sub = true ->
  Js.includes (Js.toLowerCase s) (Js.toLowerCase sub) = true.
Proof.
  rewrite !includes_substring. intros (p & q & ->).
  exists (Js.toLowerCase p), (Js.toLowerCase q). now rewrite !toLowerCase_app.
Qed.

(** The pieces [split] returns are substrings: the first continues [acc]
    with a prefix of what is left to read, the others lie in it. *)
Lemma split_go_pieces (sep s : string) :
  forall skip acc,
    exists first others,
      Js.split_go sep skip acc s = first :: others /\
      (exists p rest, first = acc ++ p /\
                      exists gap, s = gap ++ p ++ rest /\ (skip = 0 -> gap = "")) /\
      (forall x, In x others -> Js.includes s x = true).
Proof.
  induction s as [|c s IH]; intros skip acc; cbn [Js.split_go].
  - exists acc, []. split; [reflexivity|]. split; [|intros x []].
    exists "", "". split; [now rewrite string_app_nil_r|]. now exists "".
  - destruct skip as [|k].
    + destruct (Js.startsWith (String c s) sep) eqn:Hs.
      * destruct (IH (String.length sep - 1) "") as (f & o & -> & (p & rest & -> & gap & Hgap & _) & Ho).
        exists acc, (("" ++ p) :: o). split; [reflexivity|]. split.
        -- exists "", (String c s). split; [now rewrite string_app_nil_r|].
           now exists "".
        -- intros x [<-|Hx].
           ++ apply includes_substring. exists (String c gap), rest.
              simpl. now rewrite Hgap.
           ++ cbn [Js.includes]. rewrite (Ho x Hx). apply orb_true_r.
      * destruct (IH 0 (acc ++ String c "")) as (f & o & -> & (p & rest & -> & gap & Hgap & H0) & Ho).
        exists (acc ++ String c p), o. split.
        -- now rewrite string_app_assoc.
        -- split.
           ++ exists (String c p), rest. split; [reflexivity|].
              exists "". split; [|reflexivity].
              rewrite (H0 eq_refl) in Hgap. simpl in *. now rewrite Hgap.
           ++ intros x Hx. cbn [Js.includes]. rewrite (Ho x Hx). apply orb_true_r.
    + destruct (IH k acc) as (f & o & -> & (p & rest & -> & gap & Hgap & _) & Ho).
      exists (acc ++ p), o. split; [reflexivity|]. split.
      * exists p, rest. split; [reflexivity|].
        exists (String c gap). split; [simpl; now rewrite Hgap|discriminate].
      * intros x Hx. cbn [Js.includes]. rewrite (Ho x Hx). apply orb_true_r.
Qed.

Lemma split_pieces (sep s x : string) :
  In x (Js.split sep s) -> Js.includes s x = true.
Proof.
  unfold Js.split.
  destruct (split_go_pieces sep s 0 "") as (f & o & -> & (p & rest & -> & gap & Hgap & H0) & Ho).
  intros [<-|Hx]; [|now apply Ho].
  apply includes_substring. exists "", rest.
  rewrite (H0 eq_refl) in Hgap. exact Hgap.
Qed.

(** The first piece is a prefix. *)
Lemma split_first_prefix (sep s : string) :
  exists rest, s = hd "" (Js.split sep s) ++ rest.
Proof.
  unfold Js.split.
  destruct (split_go_pieces sep s 0 "") as (f & o & -> & (p & rest & -> & gap & Hgap & H0) & _).
  exists rest. rewrite (H0 eq_refl) in Hgap. exact Hgap.
Qed.

(** With the one-character separator ["-"], the first piece of
    [x ++ "-" ++ y] is the first piece of [x]. *)
Lemma split_hyphen_first (x y : string) :
  forall acc,
    hd "" (Js.split_go "-" 0 acc (x ++ "-" ++ y)) = hd "" (Js.split_go "-" 0 acc x).
Proof.
  induction x as [|c x IH]; intros acc.
  - reflexivity.
  - change (String c x ++ "-" ++ y) with (String c (x ++ "-" ++ y)).
    cbn [Js.split_go Js.startsWith].
    destruct (Ascii.eqb "-" c); cbn [andb]; [reflexivity|apply IH].
Qed.

(** ** The slug mapper *)

(** C9: what [slugToResourceType] returns is [null] or one of the
    candidates it was given; it never makes up a type. *)
Theorem slugToResourceType_returns_candidate (types : list string) (slug : string) :
  match slugToResourceType types slug with
  | Some type => In type types
  | None => True
  end.
Proof.
  destruct (slugToResourceType types slug) as [t|] eqn:H; [|exact I].
  unfold slugToResourceType in H.
  destruct ((slug =? "") || (List.length types =? 0)%nat); [discriminate|].
  rewrite repeatedSegmentMatch_rules, exactMatch_firstCandidate,
    partialMatch_firstCandidate in H.
  assert (Hsel : forall r, select r types = Some t -> In t types).
  { intros r. unfold select. rewrite firstCandidate_find.
    destruct (skipsEmpty r); intros Hr;
      [apply orNull_some in Hr|]; eapply find_some_in; eassumption. }
  assert (Hrules : forall rs, firstByPriority rs types = Some t -> In t types).
  { induction rs as [|r rs IH]; simpl; [discriminate|].
    destruct (select r types) eqn:Hr; [intros [= ->]; eauto|exact IH]. }
  destruct (firstByPriority (segmentRules true slug) types) eqn:H1.
  { injection H as ->. eauto. }
  rewrite firstCandidate_find in H.
  destruct (find _ types) eqn:H2 in H.
  { injection H as ->. eapply find_some_in; eassumption. }
  destruct (slug =? "my-pledges").
  { apply orNull_some in H. eapply find_some_in; eassumption. }
  destruct (slug =? "fee-maker").
  { apply orNull_some in H. eapply find_some_in; eassumption. }
  destruct (Js.orNull _) eqn:H3 in H.
  { injection H as ->. apply orNull_some in H3. eapply find_some_in; eassumption. }
  rewrite firstCandidate_find in H. eapply find_some_in; eassumption.
Qed.











(** The slug of ["coin::CoinStore"] is ["coin-coin-store"], which repeats a
    segment: the special case returns the first candidate that contains
    ["coin"]. *)
Lemma slug_roundtrip_fails_on_repeated_segment :
  ~ roundTripsAt "coin::CoinStore" ["a::Coin"; "coin::CoinStore"].
Proof.
  unfold roundTripsAt. intros H.
  specialize (H eq_refl (or_intror (or_introl eq_refl))).
  vm_compute in H. discriminate.
Qed.

(** Two candidates with the same slug: the first one is returned. *)
Example slug_roundtrip_fails_on_shared_slug :
  ~ roundTripsAt "coin::Store" ["Coin::Store"; "coin::Store"].
Proof.
  unfold roundTripsAt. intros H.
  specialize (H eq_refl (or_intror (or_introl eq_refl))).
  vm_compute in H. discriminate.
Qed.

Lemma exactMatch_first (pre post : list string) (type : string) :
  (forall t, In t pre -> resourceTypeToSlug t <> resourceTypeToSlug type) ->
  exactMatch (pre ++ type :: post) (resourceTypeToSlug type) = Some type.
Proof.
  intros Hpre. rewrite exactMatch_firstCandidate. apply firstCandidate_first.
  exists pre, post. repeat split.
  - apply String.eqb_refl.
  - intros x Hx. apply String.eqb_neq. now apply Hpre.
Qed.

Lemma uniq_from_head (x : string) (l : list string) :
  exists rest, Js.arrayFromSet (x :: l) = x :: rest.
Proof.
  unfold Js.arrayFromSet. simpl. eauto.
Qed.

(** The first segment of a slug occurs, lower-cased, in the type the slug
    was made from. *)
Lemma slug_first_segment_in_type (type : string) :
  Js.includes type "::" = true ->
  containsSegment (hd "" (Js.split "-" (resourceTypeToSlug type))) type = true.
Proof.
  intros H. unfold resourceTypeToSlug.
  destruct (type =? "") eqn:He.
  { apply String.eqb_eq in He. subst. discriminate. }
  pose proof (split_includes "::" type ltac:(discriminate) H) as Hl.
  pose proof Hl as Hlt. apply Nat.ltb_ge in Hlt. rewrite Hlt.
  set (parts := Js.split "::" type) in *.
  set (module := nth (List.length parts - 2) parts "").
  unfold Js.split at 1. rewrite split_hyphen_first. fold (Js.split "-" (Js.toLowerCase module)).
  destruct (split_first_prefix "-" (Js.toLowerCase module)) as (rest & Hrest).
  set (segment := hd "" (Js.split "-" (Js.toLowerCase module))) in *.
  unfold containsSegment.
  apply includes_trans with (b := Js.toLowerCase module).
  - apply includes_toLowerCase, split_pieces with (sep := "::").
    apply nth_In. fold parts. lia.
  - rewrite <- (toLowerCase_idempotent module), Hrest, toLowerCase_app.
    apply includes_substring. now exists "", (Js.toLowerCase rest).
Qed.

(** C2 (amended): for a type that contains ["::"] and is among the
    candidates, the round trip returns the type when no candidate before it
    has the same slug, if the segments of the slug are pairwise distinct,
    and when no candidate before it contains the first segment of the slug,
    if a segment of the slug is repeated. *)
Theorem slug_roundtrip (type : string) (pre post : list string) :
  Js.includes type "::" = true ->
  (if hasRepeatedSegment (resourceTypeToSlug type)
   then forall t, In t pre ->
          containsSegment (hd "" (Js.split "-" (resourceTypeToSlug type))) t = false
   else forall t, In t pre -> resourceTypeToSlug t <> resourceTypeToSlug type) ->
  slugToResourceType (pre ++ type :: post) (resourceTypeToSlug type) = Some type.
Proof.
  intros Hinc Hpre.
  pose proof (slug_first_segment_in_type type Hinc) as Hseg.
  destruct (resourceTypeToSlug_shape type Hinc) as (module & kebab & Hslug).
  unfold slugToResourceType.
  replace (List.length (pre ++ type :: post) =? 0)%nat with false
    by (symmetry; apply Nat.eqb_neq; rewrite length_app; simpl; lia).
  replace (resourceTypeToSlug type =? "") with false
    by (rewrite Hslug; symmetry; apply append_hyphen_nonempty).
  cbn [orb].
  unfold hasRepeatedSegment in Hpre. unfold repeatedSegmentMatch.
  replace (Js.includes (resourceTypeToSlug type) "-") with true in *
    by (rewrite Hslug; symmetry; apply includes_append_hyphen).
  cbn [andb] in Hpre.
  destruct (_ <? _)%nat.
  - (* a repeated segment: the first candidate with the first segment *)
    destruct (Js.split "-" (resourceTypeToSlug type)) as [|segment rest] eqn:Hsplit.
    { pose proof (split_go_nonempty "-" (resourceTypeToSlug type) 0 "") as Hne.
      unfold Js.split in Hsplit. rewrite Hsplit in Hne. simpl in Hne. lia. }
    destruct (uniq_from_head segment rest) as (others & ->).
    cbn [hd] in *. cbn [findBySegments].
    replace (find _ (pre ++ type :: post)) with (Some type).
    + unfold Js.orNull, Js.truthy.
      replace (type =? "") with false; [reflexivity|].
      symmetry. apply String.eqb_neq. intros ->. discriminate.
    + symmetry. rewrite <- firstCandidate_find. apply firstCandidate_first.
      exists pre, post. repeat split; assumption.
  - now rewrite exactMatch_first.
Qed.

Lemma slug_roundtrip_witness :
  slugToResourceType
    (["stake::ValidatorConfig"] ++ "coin::CoinStore" :: ["fee_maker::FeeMaker"])
    (resourceTypeToSlug "coin::CoinStore")
  = Some "coin::CoinStore" /\
  slugToResourceType
    (["coin::CoinStore"] ++ "fee_maker::FeeMaker" :: ["stake::ValidatorConfig"])
    (resourceTypeToSlug "fee_maker::FeeMaker")
  = Some "fee_maker::FeeMaker".
Proof.
  split.
  - apply (slug_roundtrip "coin::CoinStore" ["stake::ValidatorConfig"]
             ["fee_maker::FeeMaker"]).
    + reflexivity.
    + replace (hasRepeatedSegment (resourceTypeToSlug "coin::CoinStore"))
        with true by (vm_compute; reflexivity).
      intros t [<-|[]]. vm_compute. reflexivity.
  - apply (slug_roundtrip "fee_maker::FeeMaker" ["coin::CoinStore"]
             ["stake::ValidatorConfig"]).
    + reflexivity.
    + replace (hasRepeatedSegment (resourceTypeToSlug "fee_maker::FeeMaker"))
        with false by (vm_compute; reflexivity).
      intros t [<-|[]] H. vm_compute in H. discriminate.
Defined.

(** ** Sorting *)

Lemma ordered_trans (a b c : string) : ordered a b -> ordered b c -> ordered a c.
Proof.
  unfold ordered, String.leb. revert b c.
  induction a as [|x a IH]; intros [|y b] [|z c]; simpl; try congruence.
  unfold Ascii.compare.
  destruct (N.compare_spec (N_of_ascii x) (N_of_ascii y)) as [Hxy|Hxy|Hxy];
    destruct (N.compare_spec (N_of_ascii y) (N_of_ascii z)) as [Hyz|Hyz|Hyz];
    destruct (N.compare_spec (N_of_ascii x) (N_of_ascii z)) as [Hxz|Hxz|Hxz];
    try congruence; try lia.
  apply IH.
Qed.

Lemma sortInsert_perm (x : string) (l : list string) :
  Permutation (x :: l) (sortInsert x l).
Proof.
  induction l as [|y l IH]; simpl; [constructor; constructor|].
  destruct (String.leb x y); [reflexivity|].
  rewrite perm_swap. now constructor.
Qed.

Lemma jsSort_perm (l : list string) : Permutation l (jsSort l).
Proof.
  induction l as [|x l IH]; simpl; [constructor|].
  rewrite <- sortInsert_perm. now constructor.
Qed.

Lemma sortInsert_sorted (x : string) (l : list string) :
  Sorted ordered l -> Sorted ordered (sortInsert x l).
Proof.
  induction l as [|y l IH]; intros Hs; simpl.
  - repeat constructor.
  - destruct (String.leb x y) eqn:Hxy.
    + constructor; [assumption|]. now constructor.
    + inversion Hs as [|? ? Hl Hhd]; subst.
      assert (Hyx : ordered y x).
      { destruct (String.leb_total x y) as [H|H]; [congruence|exact H]. }
      constructor; [now apply IH|].
      destruct l as [|z l]; simpl.
      * now constructor.
      * destruct (String.leb x z); constructor; [assumption|].
        now inversion Hhd.
Qed.

Lemma jsSort_sorted (l : list string) : StronglySorted ordered (jsSort l).
Proof.
  apply Sorted_StronglySorted.
  - intros a b c. apply ordered_trans.
  - induction l as [|x l IH]; simpl; [constructor|].
    now apply sortInsert_sorted.
Qed.

Lemma jsSort_in (l : list string) (t : string) : In t (jsSort l) <-> In t l.
Proof.
  split; apply Permutation_in; [symmetry|]; apply jsSort_perm.
Qed.


(** ** The category map *)






(** ** Grouping by category *)










(** ** The categories *)











(** ** The refresh cycle *)

(** [getTransactions] is awaited before the ledger calls are made: when it
    rejects, the stats stay as they were. *)
Lemma refreshData_stats_not_updated :
  ~ statsUpdatedWhenTransactionsReject 25 ledgerOnlySdk
      (render true (hook idleWorld)) idleWorld.
Proof.
  intros H.
  destruct (H (ErrorObject "Network Error") 500000%Z 42%Z "1"
              (conj eq_refl (conj eq_refl eq_refl))
              eq_refl eq_refl eq_refl eq_refl) as [Hstats _].
  vm_compute in Hstats. discriminate.
Qed.

(** C1 (amended): in a refresh cycle whose [getTransactions] rejects, the
    only SDK call made is [getTransactions]; the cycle ends with the stats
    and the transactions list as they were, the message of the rejection in
    the store's error field, and the loading flags down. *)
Theorem refreshData_transactions_rejected
  (defaultLimit : nat) (sdk : Sdk) (c : Closure) (w : World) (e : Thrown) :
  passesGuards c ->
  getTransactions sdk (transactionLimit defaultLimit (store w)) = Rejected e ->
  let w' := refreshData defaultLimit sdk c w in
  refreshData_effects defaultLimit sdk c (store w) =
    [SetIsLoading true; SetFetchRequested true; StoreWrite (SetLoading true);
     Dispatch (GetTransactions (transactionLimit defaultLimit (store w)));
     StoreWrite (SetError (messageOf e));
     SetIsLoading false; SetFetchRequested false; StoreWrite (SetLoading false)] /\
  stats (store w') = stats (store w) /\
  transactions (store w') = transactions (store w) /\
  error (store w') = Some (messageOf e) /\
  isLoading (store w') = false /\
  sdkCalls w' =
    (sdkCalls w ++ [GetTransactions (transactionLimit defaultLimit (store w))])%list.
Proof.
  intros (Hi & Hl & Hf) Hrej w'.
  assert (Heff : refreshData_effects defaultLimit sdk c (store w) =
    [SetIsLoading true; SetFetchRequested true; StoreWrite (SetLoading true);
     Dispatch (GetTransactions (transactionLimit defaultLimit (store w)));
     StoreWrite (SetError (messageOf e));
     SetIsLoading false; SetFetchRequested false; StoreWrite (SetLoading false)]).
  { unfold refreshData_effects, refreshData_begin. rewrite Hi, Hl, Hf. cbn [negb orb].
    change (transactionLimit defaultLimit (act (SetLoading true) (store w)))
      with (transactionLimit defaultLimit (store w)).
    rewrite Hrej. reflexivity. }
  split; [exact Heff|].
  subst w'. unfold refreshData. rewrite Heff.
  repeat split; reflexivity.
Qed.

Lemma refreshData_transactions_rejected_witness :
  let w' := refreshData 25 ledgerOnlySdk (render true (hook idleWorld)) idleWorld in
  stats (store w') = stats (store idleWorld) /\
  transactions (store w') = [] /\
  error (store w') = Some "Network Error" /\
  sdkCalls w' = [GetTransactions 25].
Proof.
  destruct (refreshData_transactions_rejected 25 ledgerOnlySdk
              (render true (hook idleWorld)) idleWorld (ErrorObject "Network Error")
              (conj eq_refl (conj eq_refl eq_refl)) eq_refl)
    as (_ & Hs & Ht & He & _ & Hc).
  repeat split; assumption.
Defined.

(** [Promise.all] is fulfilled exactly when the three promises are, and
    rejected with the reason of the first of them to reject. *)
Lemma promiseAll3_fulfilled {A B C : Type} (order : SettleOrder)
  (a : Settled A) (b : Settled B) (c : Settled C) (x : A) (y : B) (z : C) :
  promiseAll3 order a b c = Fulfilled (x, y, z) <->
  a = Fulfilled x /\ b = Fulfilled y /\ c = Fulfilled z.
Proof.
  split.
  - destruct order, a, b, c; cbn; intros H; try discriminate;
      injection H as -> -> ->; repeat split.
  - intros (-> & -> & ->). now destruct order.
Qed.

Lemma promiseAll3_rejected {A B C : Type} (order : SettleOrder)
  (a : Settled A) (b : Settled B) (c : Settled C) (e : Thrown) :
  promiseAll3 order a b c = Rejected e <->
  firstRejection
    (inSettleOrder order (rejectionOf a) (rejectionOf b) (rejectionOf c)) = Some e.
Proof.
  destruct order, a, b, c; cbn; split; intros H; congruence.
Qed.

(** A rejected [Promise.all] has a rejected member, and the other way. *)
Lemma promiseAll3_rejected_member {A B C : Type} (order : SettleOrder)
  (a : Settled A) (b : Settled B) (c : Settled C) :
  (exists e, promiseAll3 order a b c = Rejected e) <->
  (exists e, a = Rejected e \/ b = Rejected e \/ c = Rejected e).
Proof.
  split.
  - intros [e H]. destruct a as [x|ea]; [|eauto].
    destruct b as [y|eb]; [|eauto].
    destruct c as [z|ec]; [|eauto].
    now destruct order.
  - intros [e H]. destruct order, a, b, c; cbn; eauto;
      destruct H as [H|[H|H]]; discriminate.
Qed.

(** The effects of a cycle that reaches the ledger calls. *)
Lemma refreshData_effects_after_transactions
  (defaultLimit : nat) (sdk : Sdk) (c : Closure) (s : Store)
  (txs : list Transaction) :
  passesGuards c ->
  getTransactions sdk (transactionLimit defaultLimit s) = Fulfilled txs ->
  refreshData_effects defaultLimit sdk c s =
    ([SetIsLoading true; SetFetchRequested true; StoreWrite (SetLoading true);
      Dispatch (GetTransactions (transactionLimit defaultLimit s));
      StoreWrite (SetTransactions txs);
      Dispatch GetLatestBlockHeight; Dispatch GetLatestEpoch; Dispatch GetChainId] ++
     refreshData_afterStats
       (promiseAll3 (ledgerSettleOrder sdk) (getLatestBlockHeight sdk)
          (getLatestEpoch sdk) (getChainId sdk)))%list.
Proof.
  intros (Hi & Hl & Hf) Hful.
  unfold refreshData_effects, refreshData_begin.
  rewrite Hi, Hl, Hf. cbn [negb orb].
  change (transactionLimit defaultLimit (act (SetLoading true) s))
    with (transactionLimit defaultLimit s).
  rewrite Hful. reflexivity.
Qed.

(** The other half of section 4.4: when [getTransactions] fulfils and
    ledger calls reject, the new transactions stay in the store, the stats
    are as they were and the error recorded is the message of the ledger
    call that rejected first in time, whatever its place among the three. *)
Lemma refreshData_stats_rejected
  (defaultLimit : nat) (sdk : Sdk) (c : Closure) (w : World)
  (txs : list Transaction) (e : Thrown) :
  passesGuards c ->
  getTransactions sdk (transactionLimit defaultLimit (store w)) = Fulfilled txs ->
  firstRejection
    (inSettleOrder (ledgerSettleOrder sdk)
       (rejectionOf (getLatestBlockHeight sdk))
       (rejectionOf (getLatestEpoch sdk))
       (rejectionOf (getChainId sdk))) = Some e ->
  let w' := refreshData defaultLimit sdk c w in
  stats (store w') = stats (store w) /\
  transactions (store w') = txs /\
  error (store w') = Some (messageOf e) /\
  sdkCalls w' =
    (sdkCalls w ++
     [GetTransactions (transactionLimit defaultLimit (store w));
      GetLatestBlockHeight; GetLatestEpoch; GetChainId])%list.
Proof.
  intros Hg Hful Hrej w'. subst w'.
  apply promiseAll3_rejected in Hrej.
  unfold refreshData.
  rewrite (refreshData_effects_after_transactions _ _ _ _ _ Hg Hful), Hrej.
  cbn. repeat rewrite <- app_assoc. repeat split; reflexivity.
Qed.

(** The cycle's store write is not one write: while the ledger calls are
    awaited the store shows the new transactions beside the old stats. *)
Lemma refreshData_writes_in_two_steps :
  ~ cycleWriteAtomic 25 healthySdk (render true (hook idleWorld)) idleWorld.
Proof.
  intros H.
  destruct (H (run (untilLedgerAwait 25 [sampleTransaction]) idleWorld))
    as [[Htx _]|[_ Hst]].
  - cbn. do 8 right. left. reflexivity.
  - vm_compute in Htx. discriminate.
  - vm_compute in Hst. discriminate.
Qed.

Lemma statesAlong_last (es rest : list Effect) (w : World) :
  In (run es w) (statesAlong (es ++ rest) w).
Proof.
  revert w. induction es as [|e es IH]; intros w.
  - destruct rest; now left.
  - cbn. right. apply IH.
Qed.

(** C6 (amended): once the transactions have arrived they are written by
    their own [setTransactions], and the three ledger calls are all issued
    before the [Promise.all] is awaited, whatever each of them answers; at
    that await the store shows the new transactions beside the stats from
    before the cycle.  The stats are written exactly when the three calls
    fulfil, by one [setStats] that carries the three values and is followed
    by [forceUpdate]; when one of them rejects no [setStats] is issued.  So
    every state the store goes through in any cycle has the stats from
    before the cycle or the three new values together. *)
Theorem refreshData_stats_never_torn
  (defaultLimit : nat) (sdk : Sdk) (c : Closure) (w : World) :
  let limit := transactionLimit defaultLimit (store w) in
  let effects := refreshData_effects defaultLimit sdk c (store w) in
  (forall w',
     In w' (statesAlong effects w) ->
     stats (store w') = stats (store w) \/
     exists h ep cid,
       getLatestBlockHeight sdk = Fulfilled h /\
       getLatestEpoch sdk = Fulfilled ep /\
       getChainId sdk = Fulfilled cid /\
       stats (store w') =
         {| blockHeight := Some h; epoch := Some ep; chainId := Some cid |}) /\
  (forall txs,
     passesGuards c ->
     getTransactions sdk limit = Fulfilled txs ->
     let atAwait := run (untilLedgerAwait limit txs) w in
     (exists rest, effects = (untilLedgerAwait limit txs ++ rest)%list) /\
     In atAwait (statesAlong effects w) /\
     transactions (store atAwait) = txs /\
     stats (store atAwait) = stats (store w) /\
     sdkCalls atAwait =
       (sdkCalls w ++
        [GetTransactions limit;
         GetLatestBlockHeight; GetLatestEpoch; GetChainId])%list /\
     (forall h ep cid,
        getLatestBlockHeight sdk = Fulfilled h ->
        getLatestEpoch sdk = Fulfilled ep ->
        getChainId sdk = Fulfilled cid ->
        effects =
          (untilLedgerAwait limit txs ++
           [StoreWrite (SetStats h ep cid); StoreWrite ForceUpdate;
            SetIsLoading false; SetFetchRequested false;
            StoreWrite (SetLoading false)])%list /\
        stats (store (refreshData defaultLimit sdk c w)) =
          {| blockHeight := Some h; epoch := Some ep; chainId := Some cid |}) /\
     (forall e,
        getLatestBlockHeight sdk = Rejected e \/
        getLatestEpoch sdk = Rejected e \/
        getChainId sdk = Rejected e ->
        (forall h ep cid, ~ In (StoreWrite (SetStats h ep cid)) effects) /\
        (forall w', In w' (statesAlong effects w) ->
                    stats (store w') = stats (store w)))).
Proof.
  intros limit effects.
  assert (Hstates : forall w',
     In w' (statesAlong effects w) ->
     stats (store w') = stats (store w) \/
     exists h ep cid,
       getLatestBlockHeight sdk = Fulfilled h /\
       getLatestEpoch sdk = Fulfilled ep /\
       getChainId sdk = Fulfilled cid /\
       stats (store w') =
         {| blockHeight := Some h; epoch := Some ep; chainId := Some cid |}).
  { subst effects. unfold refreshData_effects, refreshData_begin.
    destruct (negb (c_isInitialized c)).
    { intros w' [<-|[]]. now left. }
    destruct (c_isLoading c || c_fetchRequested c).
    { intros w' [<-|[]]. now left. }
    destruct (getTransactions sdk _) as [txs|e]; cbn [refreshData_afterTransactions].
    + destruct (promiseAll3 _ _ _ _) as [[[h ep] cid]|e] eqn:Hall;
        cbn [refreshData_afterStats];
        intros w' Hin; cbn in Hin.
      * apply promiseAll3_fulfilled in Hall as (Hh & He & Hc).
        repeat (destruct Hin as [<-|Hin];
                [first [now left | right; exists h, ep, cid; now repeat split]|]).
        destruct Hin.
      * repeat (destruct Hin as [<-|Hin]; [now left|]). destruct Hin.
    + intros w' Hin; cbn in Hin.
      repeat (destruct Hin as [<-|Hin]; [now left|]). destruct Hin. }
  split; [exact Hstates|].
  intros txs Hg Hful atAwait.
  pose proof (refreshData_effects_after_transactions
                defaultLimit sdk c (store w) txs Hg Hful) as Heff.
  fold limit effects in Heff. fold (untilLedgerAwait limit txs) in Heff.
  split; [eauto|].
  split; [rewrite Heff; apply statesAlong_last|].
  split; [reflexivity|].
  split; [reflexivity|].
  split; [subst atAwait; cbn; now repeat rewrite <- app_assoc|].
  split.
  - intros h ep cid Hh He Hc.
    assert (Hall : promiseAll3 (ledgerSettleOrder sdk) (getLatestBlockHeight sdk)
                     (getLatestEpoch sdk) (getChainId sdk) = Fulfilled (h, ep, cid))
      by now apply promiseAll3_fulfilled.
    unfold refreshData. fold effects. rewrite Heff, Hall.
    split; reflexivity.
  - intros e He.
    destruct (proj2 (promiseAll3_rejected_member (ledgerSettleOrder sdk)
                       (getLatestBlockHeight sdk) (getLatestEpoch sdk)
                       (getChainId sdk)) (ex_intro _ e He)) as [e' Hall].
    split.
    + intros h ep cid Hin. rewrite Heff, Hall in Hin. cbn in Hin.
      repeat (destruct Hin as [Hin|Hin]; [discriminate|]). destruct Hin.
    + intros w' Hin. destruct (Hstates w' Hin) as [Hs|(h & ep & cid & Hh & Hp & Hc & _)];
        [exact Hs|].
      destruct He as [He|[He|He]]; congruence.
Qed.

Lemma refreshData_stats_never_torn_witness :
  let w' := refreshData 25 healthySdk (render true (hook idleWorld)) idleWorld in
  let atAwait := run (untilLedgerAwait 25 [sampleTransaction]) idleWorld in
  transactions (store atAwait) = [sampleTransaction] /\
  stats (store atAwait) = stats emptyStore /\
  stats (store w') =
    {| blockHeight := Some 500000%Z; epoch := Some 42%Z; chainId := Some "1" |}.
Proof.
  destruct (refreshData_stats_never_torn 25 healthySdk
              (render true (hook idleWorld)) idleWorld) as [_ H].
  destruct (H [sampleTransaction] (conj eq_refl (conj eq_refl eq_refl)) eq_refl)
    as (_ & _ & Htx & Hst & _ & Hok & _).
  destruct (Hok 500000%Z 42%Z "1" eq_refl eq_refl eq_refl) as [_ Hnew].
  repeat split; assumption.
Defined.

(** ** The in-flight guard *)

(** A call through a closure built after the flags were raised returns at
    the guard: no SDK call, no store write. *)
Lemma refreshData_guard_with_fresh_closure
  (defaultLimit : nat) (c : Closure) (w : World) (isInitialized : bool) :
  passesGuards c ->
  refreshData_begin defaultLimit
    (render isInitialized (hook (inFlight defaultLimit c w)))
    (store (inFlight defaultLimit c w))
  = ([], None).
Proof.
  intros (Hi & Hl & Hf). unfold inFlight, refreshData_begin.
  rewrite Hi, Hl, Hf. cbn. now destruct isInitialized.
Qed.

(** A second call through the same closure does not see the flags: it goes
    past the guard and calls [sdk.getTransactions] again. *)
Lemma refreshData_guard_with_same_closure
  (defaultLimit : nat) (c : Closure) (w : World) :
  passesGuards c ->
  refreshData_begin defaultLimit c (store (inFlight defaultLimit c w)) =
  refreshData_begin defaultLimit c (store w) /\
  sdkCalls (inFlight defaultLimit c (inFlight defaultLimit c w)) =
    (sdkCalls w ++
     [GetTransactions (transactionLimit defaultLimit (store w));
      GetTransactions (transactionLimit defaultLimit (store w))])%list.
Proof.
  intros (Hi & Hl & Hf). unfold inFlight, refreshData_begin.
  rewrite Hi, Hl, Hf. cbn. now rewrite <- app_assoc.
Qed.

(** C5 (the code at the failing input): the effect that sets the polling
    interval runs once, so its callback keeps the [refreshData] of that
    render, whose [isLoading] and [fetchRequested] are [false].  While a
    first call is waiting, a tick goes through that closure past the guard,
    raises the flags again and calls [sdk.getTransactions] a second time. *)
Theorem refreshData_stale_closure_refetches :
  let captured := render true (hook idleWorld) in
  let w1 := inFlight 25 captured idleWorld in
  h_isLoading (hook w1) = true /\
  h_fetchRequested (hook w1) = true /\
  isLoading (store w1) = true /\
  sdkCalls w1 = [GetTransactions 25] /\
  tick 25 captured w1 =
    ([SetIsLoading true; SetFetchRequested true; StoreWrite (SetLoading true);
      Dispatch (GetTransactions 25)], Some 25) /\
  sdkCalls (run (fst (tick 25 captured w1)) w1) =
    [GetTransactions 25; GetTransactions 25].
Proof.
  repeat split; reflexivity.
Qed.

(** ** Unmounting *)

(** [refreshData] reads no liveness flag: the transactions that arrive after
    the unmount are written to the store. *)
Lemma refreshData_applies_late_response :
  ~ lateResponseDiscarded
      (unmount (inFlight 25 (render true (hook idleWorld)) idleWorld))
      (Fulfilled [sampleTransaction]).
Proof.
  intros H. specialize (H eq_refl).
  apply (f_equal transactions) in H. vm_compute in H. discriminate.
Qed.

Lemma perform_unmount (w : World) (e : Effect) :
  perform (unmount w) e = unmount (perform w e).
Proof.
  destruct e; reflexivity.
Qed.

Lemma run_unmount (es : list Effect) (w : World) :
  run es (unmount w) = unmount (run es w).
Proof.
  revert w. induction es as [|e es IH]; intros w; simpl; [reflexivity|].
  unfold run in IH. now rewrite perform_unmount, IH.
Qed.

(** C8 (amended): unmounting clears the polling interval, so no further
    tick starts a refresh, and it does not cancel the call that is out.
    [refreshData] checks no liveness flag: the late response is applied to
    the store as it would be for a mounted consumer, and the cycle goes on
    to the ledger calls.  On the account screen the liveness flag of
    [handleRefresh] only decides whether the reset of the screen's own
    [isAutoRefreshing] is scheduled after [refreshAccount] has settled. *)
Theorem unmount_does_not_discard_response
  (defaultLimit : nat) (captured : Closure) (w : World)
  (r : Settled (list Transaction)) (txs : list Transaction) :
  tick defaultLimit captured (unmount w) = ([], None) /\
  store (run (fst (refreshData_afterTransactions r)) (unmount w)) =
    store (run (fst (refreshData_afterTransactions r)) w) /\
  transactions
    (store (run (fst (refreshData_afterTransactions (Fulfilled txs))) (unmount w)))
    = txs /\
  sdkCalls (run (fst (refreshData_afterTransactions (Fulfilled txs))) (unmount w)) =
    (sdkCalls w ++ [GetLatestBlockHeight; GetLatestEpoch; GetChainId])%list /\
  (forall settled,
     AccountScreen.handleRefresh_afterRefresh settled false =
       match settled with
       | Fulfilled _ => []
       | Rejected _ => [AccountScreen.ConsoleError]
       end) /\
  (forall settled,
     AccountScreen.handleRefresh_afterRefresh settled true =
       (AccountScreen.handleRefresh_afterRefresh settled false ++
        [AccountScreen.SetTimeout 500 (AccountScreen.SetIsAutoRefreshing false)])%list).
Proof.
  split; [reflexivity|].
  split; [now rewrite run_unmount|].
  split; [reflexivity|].
  split; [cbn; repeat rewrite <- app_assoc; reflexivity|].
  split; intros [u|e]; reflexivity.
Qed.

(** ** The search bar *)

(** A string is trimmed to nothing exactly when it is empty or all white
    space. *)
Lemma trimStart_blank (s : string) :
  Js.trimStart s = "" <-> Js.isBlank s = true.
Proof.
  induction s as [|c s IH]; simpl; [tauto|].
  destruct (Js.isWhiteSpace c); simpl; [exact IH|].
  split; discriminate.
Qed.

Lemma trimStart_head (s : string) :
  Js.trimStart s = "" \/
  exists c r, Js.trimStart s = String c r /\ Js.isWhiteSpace c = false.
Proof.
  induction s as [|c s IH]; simpl; [now left|].
  destruct (Js.isWhiteSpace c) eqn:Hc; [exact IH|].
  right. now exists c, s.
Qed.

Lemma trim_blank (s : string) : Js.trim s = "" <-> Js.isBlank s = true.
Proof.
  rewrite <- trimStart_blank. unfold Js.trim.
  destruct (trimStart_head s) as [->|(c & r & -> & Hc)].
  - simpl. tauto.
  - simpl. rewrite Hc. simpl. split; discriminate.
Qed.

Section Search.

Variables AccountData TransactionDetail : Type.
Variable isValidAddressFormat : string -> bool.
Variable sdk : SearchBar.Sdk AccountData TransactionDetail.

(** C10: with a query that is empty or all white space [handleSearch]
    returns at once: no SDK method is called, nothing is navigated to, and
    the state, the error with it, is what it was. *)
Theorem handleSearch_blank_query (st : SearchBar.State) :
  Js.isBlank (SearchBar.searchQuery st) = true ->
  SearchBar.handleSearch_effects isValidAddressFormat sdk st = [] /\
  SearchBar.sdkCallsOf (SearchBar.handleSearch_effects isValidAddressFormat sdk st) = [] /\
  SearchBar.navigationsOf (SearchBar.handleSearch_effects isValidAddressFormat sdk st) = [] /\
  SearchBar.handleSearch isValidAddressFormat sdk st = st.
Proof.
  intros Hblank. apply trim_blank in Hblank.
  assert (He : SearchBar.handleSearch_effects isValidAddressFormat sdk st = []).
  { unfold SearchBar.handleSearch_effects. now rewrite Hblank. }
  unfold SearchBar.handleSearch. rewrite He.
  repeat split; reflexivity.
Qed.

(** C7: for a query that is not blank, when the account lookup and the
    transaction lookup both answer [null], [handleSearch] ends with exactly
    the error "No account or transaction found with this identifier" and
    navigates nowhere.  The account lookup is made only for a query in
    address format, and its [null] leads on to the transaction lookup instead
    of an error; no other SDK call is made.  In particular a query that is
    not in address format costs the one call of [getTransactionByHash]. *)
Theorem handleSearch_not_found (st : SearchBar.State) :
  let query := Js.trim (SearchBar.searchQuery st) in
  query <> "" ->
  SearchBar.getAccount sdk query = Fulfilled None ->
  SearchBar.getTransactionByHash sdk query = Fulfilled None ->
  SearchBar.error (SearchBar.handleSearch isValidAddressFormat sdk st) =
    Some "No account or transaction found with this identifier" /\
  SearchBar.isSearching (SearchBar.handleSearch isValidAddressFormat sdk st) = false /\
  SearchBar.searchQuery (SearchBar.handleSearch isValidAddressFormat sdk st) = SearchBar.searchQuery st /\
  SearchBar.navigationsOf (SearchBar.handleSearch_effects isValidAddressFormat sdk st) = [] /\
  SearchBar.sdkCallsOf (SearchBar.handleSearch_effects isValidAddressFormat sdk st) =
    ((if isValidAddressFormat query then [SearchBar.GetAccount query] else []) ++
     [SearchBar.GetTransactionByHash query])%list.
Proof.
  intros query Hq Hacc Htx.
  unfold SearchBar.handleSearch.
  assert (He : SearchBar.handleSearch_effects isValidAddressFormat sdk st =
    ([SearchBar.AnimateButton; SearchBar.SetIsSearching true; SearchBar.SetError None] ++
     (if isValidAddressFormat query then [SearchBar.Call (SearchBar.GetAccount query)] else []) ++
     [SearchBar.Call (SearchBar.GetTransactionByHash query);
      SearchBar.SetError (Some "No account or transaction found with this identifier");
      SearchBar.SetIsSearching false])%list).
  { unfold SearchBar.handleSearch_effects. fold query.
    apply String.eqb_neq in Hq. unfold Js.truthy. rewrite Hq. cbn [negb].
    unfold SearchBar.tryBlock, SearchBar.transactionLookup.
    destruct (isValidAddressFormat query).
    - rewrite Hacc, Htx. reflexivity.
    - rewrite Htx. reflexivity. }
  rewrite He. destruct (isValidAddressFormat query); repeat split; reflexivity.
Qed.

End Search.

Lemma handleSearch_blank_query_witness :
  SearchBar.handleSearch (fun _ => true) noAccountSdk
    {| SearchBar.searchQuery := "   "; SearchBar.isSearching := false;
       SearchBar.error := Some "Error performing search" |}
  = {| SearchBar.searchQuery := "   "; SearchBar.isSearching := false;
       SearchBar.error := Some "Error performing search" |}.
Proof.
  apply (handleSearch_blank_query unit unit (fun _ => true) noAccountSdk
           {| SearchBar.searchQuery := "   "; SearchBar.isSearching := false;
              SearchBar.error := Some "Error performing search" |}).
  reflexivity.
Defined.

Lemma handleSearch_not_found_witness :
  SearchBar.error
    (SearchBar.handleSearch (fun _ => false) noAccountSdk
       {| SearchBar.searchQuery := " not-an-identifier ";
          SearchBar.isSearching := false; SearchBar.error := None |})
  = Some "No account or transaction found with this identifier".
Proof.
  apply (handleSearch_not_found unit unit (fun _ => false) noAccountSdk
           {| SearchBar.searchQuery := " not-an-identifier ";
              SearchBar.isSearching := false; SearchBar.error := None |}).
  - vm_compute. discriminate.
  - reflexivity.
  - reflexivity.
Defined.

(** * More properties *)

(** ** Splitting and joining *)

Lemma split_go_no_separator (sep s : string) :
  forall acc, Js.includes s sep = false -> Js.split_go sep 0 acc s = [acc ++ s].
Proof.
  induction s as [|c s IH]; intros acc H; cbn [Js.split_go].
  - now rewrite string_app_nil_r.
  - cbn [Js.includes] in H. apply orb_false_iff in H as [Hs Hr].
    rewrite Hs, IH by assumption. now rewrite string_app_assoc.
Qed.

Lemma split_go_skip (sep s : string) :
  forall k acc,
    k <= String.length s ->
    Js.split_go sep k acc s = Js.split_go sep 0 acc (dropChars k s).
Proof.
  induction s as [|c s IH]; intros k acc Hk.
  - simpl in Hk. now replace k with 0 by lia.
  - destruct k as [|k]; [reflexivity|].
    cbn [Js.split_go dropChars]. apply IH. simpl in Hk. lia.
Qed.

Lemma startsWith_dropChars (s sub : string) :
  Js.startsWith s sub = true -> s = sub ++ dropChars (String.length sub) s.
Proof.
  revert s. induction sub as [|a sub IH]; intros s H.
  - reflexivity.
  - destruct s as [|b s]; [discriminate|]. cbn [Js.startsWith] in H.
    apply andb_true_iff in H as [Hab H]. apply Ascii.eqb_eq in Hab. subst b.
    cbn [String.length dropChars append]. f_equal. now apply IH.
Qed.

Lemma string_length_app (a b : string) :
  String.length (a ++ b) = String.length a + String.length b.
Proof.
  induction a as [|x a IH]; simpl; [reflexivity|now rewrite IH].
Qed.

Lemma dropChars_length (k : nat) (s : string) :
  String.length (dropChars k s) <= String.length s.
Proof.
  revert s. induction k as [|k IH]; intros [|c s]; simpl; try lia.
  specialize (IH s). lia.
Qed.

Lemma concat_cons (sep x : string) (l : list string) :
  1 <= List.length l -> String.concat sep (x :: l) = x ++ sep ++ String.concat sep l.
Proof.
  destruct l; simpl; [lia|reflexivity].
Qed.

(** [s.split(sep).join(sep)] is [s]. *)
Lemma split_go_join (sep : string) (n : nat) :
  sep <> "" ->
  forall s acc,
    String.length s <= n ->
    String.concat sep (Js.split_go sep 0 acc s) = acc ++ s.
Proof.
  intros Hsep. induction n as [|n IH]; intros s acc Hn.
  - destruct s; [|simpl in Hn; lia]. simpl. now rewrite string_app_nil_r.
  - destruct s as [|c r]; [simpl; now rewrite string_app_nil_r|].
    cbn [Js.split_go].
    destruct (Js.startsWith (String c r) sep) eqn:Hs.
    + pose proof (startsWith_dropChars _ _ Hs) as Heq.
      destruct sep as [|a sep]; [congruence|].
      cbn [String.length dropChars] in Heq.
      assert (Hlen : String.length sep <= String.length r).
      { apply (f_equal String.length) in Heq.
        cbn [String.length append] in Heq. rewrite string_length_app in Heq. lia. }
      replace (String.length (String a sep) - 1) with (String.length sep)
        by (simpl; lia).
      rewrite split_go_skip by assumption.
      rewrite concat_cons by apply split_go_nonempty.
      rewrite IH.
      * f_equal. symmetry. exact Heq.
      * pose proof (dropChars_length (String.length sep) r). simpl in Hn. lia.
    + rewrite IH by (simpl in Hn; lia). now rewrite string_app_assoc.
Qed.

Lemma split_join (sep s : string) :
  sep <> "" -> String.concat sep (Js.split sep s) = s.
Proof.
  intros Hsep. unfold Js.split.
  now rewrite (split_go_join sep (String.length s) Hsep s "" (le_n _)).
Qed.

(** The last two parts of a list of two or more. *)
Lemma last_two (l : list string) :
  2 <= List.length l ->
  exists front,
    l = (front ++ [nth (List.length l - 2) l ""; nth (List.length l - 1) l ""])%list.
Proof.
  intros Hl.
  destruct (exists_last (l := l)) as (l1 & b & ->); [intros ->; simpl in Hl; lia|].
  rewrite length_app in Hl. simpl in Hl.
  destruct (exists_last (l := l1)) as (front & a & ->); [intros ->; simpl in Hl; lia|].
  exists front. rewrite <- app_assoc. cbn [app]. f_equal.
  rewrite !length_app. cbn [List.length].
  replace (List.length front + 2 - 2) with (List.length front) by lia.
  replace (List.length front + 2 - 1) with (S (List.length front)) by lia.
  rewrite !app_nth2 by lia.
  replace (List.length front - List.length front) with 0 by lia.
  replace (S (List.length front) - List.length front) with 1 by lia.
  reflexivity.
Qed.

Lemma concat_last_two (sep : string) (front : list string) (a b : string) :
  exists before, String.concat sep (front ++ [a; b]) = before ++ a ++ sep ++ b.
Proof.
  induction front as [|x front (before & IH)].
  - now exists "".
  - exists (x ++ sep ++ before).
    change ((x :: front) ++ [a; b])%list with (x :: (front ++ [a; b]))%list.
    rewrite concat_cons by (rewrite length_app; simpl; lia).
    rewrite IH. now rewrite !string_app_assoc.
Qed.

Lemma string_snoc_inv (a1 a2 acc : string) (c : ascii) :
  a1 ++ a2 = acc ++ String c "" ->
  a2 <> "" ->
  exists a2', a2 = a2' ++ String c "" /\ acc = a1 ++ a2'.
Proof.
  revert acc. induction a1 as [|x a1 IH]; intros acc H Hne.
  - exists acc. now split.
  - destruct acc as [|y acc].
    + simpl in H. injection H as _ H. destruct a1; [simpl in H; now subst|discriminate].
    + simpl in H. injection H as -> H.
      destruct (IH acc H Hne) as (a2' & -> & ->). now exists a2'.
Qed.

Lemma cleanSoFar_includes (sep acc : string) :
  sep <> "" -> cleanSoFar sep acc "" -> Js.includes acc sep = false.
Proof.
  intros Hsep Hclean. destruct (Js.includes acc sep) eqn:H; [|reflexivity].
  apply includes_substring in H as (before & rest & ->).
  assert (Hs : Js.startsWith ((sep ++ rest) ++ "") sep = false).
  { apply (Hclean before); [reflexivity|]. destruct sep; [congruence|discriminate]. }
  rewrite string_app_nil_r in Hs.
  assert (Js.startsWith (sep ++ rest) sep = true) by (apply startsWith_prefix; eauto).
  congruence.
Qed.

(** The pieces [split] returns do not contain the separator. *)
Lemma split_go_clean (sep : string) (n : nat) :
  sep <> "" ->
  forall s acc,
    String.length s <= n ->
    cleanSoFar sep acc s ->
    forall x, In x (Js.split_go sep 0 acc s) -> Js.includes x sep = false.
Proof.
  intros Hsep. induction n as [|n IH]; intros s acc Hn Hclean x Hx.
  - destruct s; [|simpl in Hn; lia]. destruct Hx as [<-|[]].
    now apply cleanSoFar_includes.
  - destruct s as [|c r].
    { destruct Hx as [<-|[]]. now apply cleanSoFar_includes. }
    cbn [Js.split_go] in Hx.
    destruct (Js.startsWith (String c r) sep) eqn:Hs.
    + destruct Hx as [<-|Hx].
      * destruct (Js.includes acc sep) eqn:H; [|reflexivity].
        apply includes_substring in H as (before & rest & ->).
        assert (Hf : Js.startsWith ((sep ++ rest) ++ String c r) sep = false).
        { apply (Hclean before); [reflexivity|]. destruct sep; [congruence|discriminate]. }
        assert (Js.startsWith ((sep ++ rest) ++ String c r) sep = true).
        { apply startsWith_prefix. exists (rest ++ String c r).
          now rewrite string_app_assoc. }
        congruence.
      * pose proof (startsWith_dropChars _ _ Hs) as Heq.
        destruct sep as [|a sep]; [congruence|].
        cbn [String.length dropChars] in Heq.
        assert (Hlen : String.length sep <= String.length r).
        { apply (f_equal String.length) in Heq.
          cbn [String.length append] in Heq. rewrite string_length_app in Heq. lia. }
        replace (String.length (String a sep) - 1) with (String.length sep) in Hx
          by (simpl; lia).
        rewrite split_go_skip in Hx by assumption.
        apply (IH (dropChars (String.length sep) r) ""); [| |exact Hx].
        -- pose proof (dropChars_length (String.length sep) r). simpl in Hn. lia.
        -- intros a1 a2 H0 Hne. destruct a1; [simpl in H0; now subst|discriminate].
    + apply (IH r (acc ++ String c "")); [simpl in Hn; lia| |exact Hx].
      intros a1 a2 H0 Hne. symmetry in H0.
      destruct (string_snoc_inv a1 a2 acc c H0 Hne) as (a2' & -> & ->).
      rewrite string_app_assoc. cbn [append].
      destruct a2' as [|y a2']; [exact Hs|].
      apply (Hclean a1); [reflexivity|discriminate].
Qed.

Lemma split_pieces_clean (sep s x : string) :
  sep <> "" -> In x (Js.split sep s) -> Js.includes x sep = false.
Proof.
  intros Hsep. apply (split_go_clean sep (String.length s) Hsep s "" (le_n _)).
  intros a1 a2 H0 Hne. destruct a1; [simpl in H0; now subst|discriminate].
Qed.

Lemma split_no_separator (sep s : string) :
  Js.includes s sep = false -> Js.split sep s = [s].
Proof.
  intros H. unfold Js.split. now rewrite split_go_no_separator.
Qed.

(** ** Slugs *)

Lemma dropLeadingHyphen_cases (s : string) :
  Js.dropLeadingHyphen s = s \/
  exists r, s = String "-"%char r /\ Js.dropLeadingHyphen s = r.
Proof.
  destruct s as [|c r]; [now left|].
  destruct c as [[] [] [] [] [] [] [] []]; first [now left | right; now exists r].
Qed.

Lemma toLowerCase_char_not_upper (c : ascii) :
  Js.isAsciiUpper (Js.toLowerCase_char c) = false.
Proof.
  destruct c as [[] [] [] [] [] [] [] []]; reflexivity.
Qed.

Lemma toLowerCase_no_upper (s : string) (c : ascii) :
  In c (list_ascii_of_string (Js.toLowerCase s)) -> Js.isAsciiUpper c = false.
Proof.
  induction s as [|x s IH]; simpl; [intros []|].
  intros [<-|H]; [apply toLowerCase_char_not_upper|now apply IH].
Qed.

(** What [resourceTypeToSlug] computes for a type with a module part. *)
Lemma resourceTypeToSlug_qualified (type : string) :
  Js.includes type "::" = true ->
  let parts := Js.split "::" type in
  resourceTypeToSlug type =
    Js.toLowerCase (nth (List.length parts - 2) parts "") ++ "-" ++
    Js.dropLeadingHyphen
      (Js.toLowerCase (Js.hyphenateCapitals (nth (List.length parts - 1) parts ""))).
Proof.
  intros H parts. unfold resourceTypeToSlug.
  destruct (type =? "") eqn:He.
  { apply String.eqb_eq in He. subst. discriminate. }
  pose proof (split_includes "::" type ltac:(discriminate) H) as Hl.
  apply Nat.ltb_ge in Hl. now rewrite Hl.
Qed.

Lemma resourceTypeToSlug_unqualified (type : string) :
  Js.includes type "::" = false -> resourceTypeToSlug type = "".
Proof.
  intros H. unfold resourceTypeToSlug.
  destruct (type =? ""); [reflexivity|].
  now rewrite (split_no_separator "::" type H).
Qed.

(** The slug is empty exactly for a type without ["::"], and such a type
    cannot be found back from its slug, whatever the candidates. *)
Theorem resourceTypeToSlug_empty (type : string) :
  (resourceTypeToSlug type = "" <-> Js.includes type "::" = false) /\
  (Js.includes type "::" = false ->
   forall types, slugToResourceType types (resourceTypeToSlug type) = None).
Proof.
  split; [split|].
  - intros Hslug. destruct (Js.includes type "::") eqn:H; [|reflexivity].
    destruct (resourceTypeToSlug_shape type H) as (m & k & Hs).
    rewrite Hs in Hslug. destruct m; discriminate.
  - apply resourceTypeToSlug_unqualified.
  - intros H types. now rewrite (resourceTypeToSlug_unqualified type H).
Qed.

(** A slug is in lower case: [toLowerCase] leaves it as it is, and it has
    no letter from A to Z. *)
Theorem resourceTypeToSlug_lower_case (type : string) :
  Js.toLowerCase (resourceTypeToSlug type) = resourceTypeToSlug type /\
  forall c, In c (list_ascii_of_string (resourceTypeToSlug type)) ->
            Js.isAsciiUpper c = false.
Proof.
  assert (Hfix : Js.toLowerCase (resourceTypeToSlug type) = resourceTypeToSlug type).
  { destruct (Js.includes type "::") eqn:H.
    - rewrite (resourceTypeToSlug_qualified type H).
      rewrite !toLowerCase_app, toLowerCase_idempotent. do 2 f_equal.
      destruct (dropLeadingHyphen_cases
                  (Js.toLowerCase
                     (Js.hyphenateCapitals
                        (nth (List.length (Js.split "::" type) - 1)
                             (Js.split "::" type) ""))))
        as [->|(r & Hr & ->)].
      + apply toLowerCase_idempotent.
      + pose proof (toLowerCase_idempotent
                      (Js.hyphenateCapitals
                         (nth (List.length (Js.split "::" type) - 1)
                              (Js.split "::" type) ""))) as Hi.
        rewrite Hr in Hi. cbn [Js.toLowerCase] in Hi. now injection Hi.
    - now rewrite (resourceTypeToSlug_unqualified type H). }
  split; [exact Hfix|].
  intros c Hc. rewrite <- Hfix in Hc. now apply toLowerCase_no_upper in Hc.
Qed.

(** [getSimplifiedType] is [resourceTypeToSlug] with the part made from the
    type name trimmed. *)
Theorem getSimplifiedType_trims (type : string) :
  Js.includes type "::" = true ->
  exists module kebab,
    resourceTypeToSlug type = module ++ "-" ++ kebab /\
    getSimplifiedType type = module ++ "-" ++ Js.trim kebab.
Proof.
  intros H. rewrite (resourceTypeToSlug_qualified type H).
  set (parts := Js.split "::" type).
  set (typeName := nth (List.length parts - 1) parts "").
  exists (Js.toLowerCase (nth (List.length parts - 2) parts "")),
         (Js.dropLeadingHyphen (Js.toLowerCase (Js.hyphenateCapitals typeName))).
  split; [reflexivity|].
  unfold getSimplifiedType.
  destruct (type =? "") eqn:He.
  { apply String.eqb_eq in He. subst. discriminate. }
  pose proof (split_includes "::" type ltac:(discriminate) H) as Hl.
  fold parts in Hl |- *. pose proof Hl as Hlt. apply Nat.ltb_ge in Hlt. rewrite Hlt.
  fold typeName. do 2 f_equal.
  assert (Hclean : Js.includes typeName "::" = false).
  { apply split_pieces_clean with (s := type); [discriminate|].
    apply nth_In. fold parts. lia. }
  unfold formatUrlSlug. rewrite (split_no_separator "::" typeName Hclean).
  destruct (typeName =? "") eqn:Hn; [|reflexivity].
  apply String.eqb_eq in Hn. now rewrite Hn.
Qed.

Lemma getSimplifiedType_trims_witness :
  exists module kebab,
    resourceTypeToSlug "0x1::stake::ValidatorConfig " = module ++ "-" ++ kebab /\
    getSimplifiedType "0x1::stake::ValidatorConfig " = module ++ "-" ++ Js.trim kebab.
Proof.
  apply (getSimplifiedType_trims "0x1::stake::ValidatorConfig ").
  reflexivity.
Defined.

(** ** The resource type index *)

Lemma span_app (test : ascii -> bool) (s : string) :
  s = fst (span test s) ++ snd (span test s).
Proof.
  induction s as [|c s IH]; simpl; [reflexivity|].
  destruct (test c); [|reflexivity].
  destruct (span test s) as [taken rest]. simpl in *. now rewrite <- IH.
Qed.

Lemma matchTypeHere_shape (s module typeName : string) :
  matchTypeHere s = Some (module, typeName) ->
  exists rest, s = "::" ++ module ++ "::" ++ typeName ++ rest.
Proof.
  unfold matchTypeHere. destruct (Js.startsWith s "::") eqn:H1; [|discriminate].
  apply startsWith_dropChars in H1. cbn [String.length] in H1.
  pose proof (span_app notColon (dropChars 2 s)) as H2.
  destruct (span notColon (dropChars 2 s)) as [m afterModule]. cbn [fst snd] in H2.
  destruct (m =? ""); [discriminate|].
  destruct (Js.startsWith afterModule "::") eqn:H3; [|discriminate].
  apply startsWith_dropChars in H3. cbn [String.length] in H3.
  pose proof (span_app notAngle (dropChars 2 afterModule)) as H4.
  destruct (span notAngle (dropChars 2 afterModule)) as [t rest]. cbn [fst snd] in H4.
  destruct (t =? ""); [discriminate|].
  intros [= <- <-]. exists rest.
  rewrite H1 at 1. rewrite H2, H3 at 1. now rewrite H4 at 1.
Qed.

Lemma matchType_shape (s module typeName : string) :
  matchType s = Some (module, typeName) ->
  exists before rest, s = before ++ "::" ++ module ++ "::" ++ typeName ++ rest.
Proof.
  induction s as [|c s IH]; cbn [matchType].
  - destruct (matchTypeHere "") as [g|] eqn:H; [|discriminate].
    intros [= ->]. apply matchTypeHere_shape in H as (rest & H). now exists "", rest.
  - destruct (matchTypeHere (String c s)) as [g|] eqn:H.
    + intros [= ->]. apply matchTypeHere_shape in H as (rest & H). now exists "", rest.
    + intros H'. destruct (IH H') as (before & rest & ->).
      now exists (String c before), rest.
Qed.

(** A key has a module part, and it occurs in the type it was taken from. *)
Lemma typeKey_spec (typeStr key : string) :
  typeKey typeStr = Some key ->
  Js.includes key "::" = true /\ Js.includes typeStr key = true.
Proof.
  unfold typeKey. destruct (matchType typeStr) as [[module typeName]|] eqn:Hm.
  - intros [= <-]. split.
    + apply includes_substring. now exists module, typeName.
    + apply matchType_shape in Hm as (before & rest & ->).
      apply includes_substring. exists (before ++ "::"), rest.
      now rewrite !string_app_assoc.
  - destruct (2 <=? List.length (Js.split "::" typeStr))%nat eqn:Hl; [|discriminate].
    apply Nat.leb_le in Hl. intros [= <-]. split.
    + apply includes_substring. eexists _, _. reflexivity.
    + destruct (last_two _ Hl) as (front & Hparts).
      destruct (concat_last_two "::" front
                  (nth (List.length (Js.split "::" typeStr) - 2) (Js.split "::" typeStr) "")
                  (nth (List.length (Js.split "::" typeStr) - 1) (Js.split "::" typeStr) ""))
        as (before & Hjoin).
      rewrite <- Hparts, split_join in Hjoin by discriminate.
      apply includes_substring. exists before, "".
      now rewrite string_app_nil_r.
Qed.

Lemma uniq_from_in (l seen : list string) (x : string) :
  In x (Js.uniq_from seen l) <-> In x l /\ ~ In x seen.
Proof.
  revert seen. induction l as [|y l IH]; intros seen; simpl; [tauto|].
  destruct (existsb (String.eqb y) seen) eqn:He.
  - apply existsb_exists in He as (z & Hz & Hyz). apply String.eqb_eq in Hyz. subst z.
    rewrite IH. split; [tauto|]. intros [[<-|H] Hn]; tauto.
  - assert (Hy : ~ In y seen).
    { intros H. assert (existsb (String.eqb y) seen = true); [|congruence].
      apply existsb_exists. exists y. split; [assumption|apply String.eqb_refl]. }
    simpl. rewrite IH. simpl. split.
    + intros [<-|[H Hn]]; tauto.
    + intros [[<-|H] Hn]; [now left|].
      destruct (string_dec y x) as [->|Hne]; [now left|right]. tauto.
Qed.

Lemma uniq_from_nodup (l seen : list string) : NoDup (Js.uniq_from seen l).
Proof.
  revert seen. induction l as [|y l IH]; intros seen; simpl; [constructor|].
  destruct (existsb (String.eqb y) seen); [apply IH|].
  constructor; [|apply IH].
  rewrite uniq_from_in. simpl. tauto.
Qed.

Lemma resourceTypesOf_in (resources : list (option string)) (key : string) :
  In key (resourceTypesOf resources) <->
  exists typeStr, In (Some typeStr) resources /\ typeKey typeStr = Some key.
Proof.
  unfold resourceTypesOf. rewrite jsSort_in. unfold Js.arrayFromSet.
  rewrite uniq_from_in, in_flat_map. split.
  - intros [([typeStr|] & Hr & Hk) _]; [|destruct Hk].
    exists typeStr. split; [assumption|].
    unfold keysOf in Hk. destruct (typeKey typeStr); [|destruct Hk].
    destruct Hk as [->|[]]. reflexivity.
  - intros (typeStr & Hr & Hk). split; [|intros []].
    exists (Some typeStr). split; [assumption|].
    unfold keysOf. rewrite Hk. now left.
Qed.

Lemma resourceTypesOf_qualified (resources : list (option string)) (key : string) :
  In key (resourceTypesOf resources) -> Js.includes key "::" = true.
Proof.
  intros Hk. apply resourceTypesOf_in in Hk as (typeStr & _ & Hk).
  now apply typeKey_spec in Hk.
Qed.

(** The list of resource types the screen computes is sorted and without
    duplicates; it holds exactly the keys of the resources; and every key
    has a module part. *)
Theorem resourceTypesOf_index (resources : list (option string)) :
  StronglySorted ordered (resourceTypesOf resources) /\
  NoDup (resourceTypesOf resources) /\
  (forall key,
     In key (resourceTypesOf resources) <->
     exists typeStr, In (Some typeStr) resources /\ typeKey typeStr = Some key) /\
  (forall key, In key (resourceTypesOf resources) -> Js.includes key "::" = true).
Proof.
  split; [apply jsSort_sorted|]. split; [|split].
  - unfold resourceTypesOf.
    eapply Permutation_NoDup; [apply jsSort_perm|]. apply uniq_from_nodup.
  - apply resourceTypesOf_in.
  - apply resourceTypesOf_qualified.
Qed.


(** Selecting a type shows every resource that gave this type to the list,
    so no listed type comes up empty. *)
Theorem activeResourcesOf_complete (resources : list (option string)) :
  (forall typeStr key,
     In (Some typeStr) resources ->
     typeKey typeStr = Some key ->
     In (Some typeStr) (activeResourcesOf (Some key) resources)) /\
  (forall key,
     In key (resourceTypesOf resources) ->
     activeResourcesOf (Some key) resources <> []).
Proof.
  assert (H : forall typeStr key,
            In (Some typeStr) resources ->
            typeKey typeStr = Some key ->
            In (Some typeStr) (activeResourcesOf (Some key) resources)).
  { intros typeStr key Hr Hk. apply typeKey_spec in Hk as [Hq Hin].
    unfold activeResourcesOf, Js.orNull, Js.truthy.
    replace (key =? "") with false
      by (symmetry; apply String.eqb_neq; intros ->; discriminate).
    cbn [negb]. apply filter_In. now split. }
  split; [exact H|].
  intros key Hk. apply resourceTypesOf_in in Hk as (typeStr & Hr & Hkey).
  intros Hnil. pose proof (H typeStr key Hr Hkey) as Hin.
  now rewrite Hnil in Hin.
Qed.




(** ** The search bar, whatever the SDK answers *)

Lemma trimEnd_idempotent (s : string) : Js.trimEnd (Js.trimEnd s) = Js.trimEnd s.
Proof.
  induction s as [|c s IH]; [reflexivity|]. cbn [Js.trimEnd].
  destruct (Js.isWhiteSpace c && (Js.trimEnd s =? "")) eqn:H; [reflexivity|].
  cbn [Js.trimEnd]. rewrite IH. now rewrite H.
Qed.

Lemma trim_idempotent (s : string) : Js.trim (Js.trim s) = Js.trim s.
Proof.
  unfold Js.trim.
  destruct (trimStart_head s) as [->|(c & r & -> & Hc)]; [reflexivity|].
  cbn [Js.trimEnd]. rewrite Hc. cbn [andb Js.trimStart]. rewrite Hc.
  cbn [Js.trimEnd]. rewrite Hc. cbn [andb]. now rewrite trimEnd_idempotent.
Qed.

Section SearchOutcomes.

Variables AccountData TransactionDetail : Type.
Variable isValidAddressFormat : string -> bool.
Variable sdk : SearchBar.Sdk AccountData TransactionDetail.

(** For a query that is not blank, [handleSearch] always ends with
    [isSearching] off and in one of three ways: it has navigated once, to
    the account or to the transaction of the trimmed query, with the error
    cleared and the input emptied; or it has navigated nowhere, kept the
    input, and set the error to one of the two messages.  It calls the SDK
    once or twice, the account lookup first and only for a query in address
    format. *)
Theorem handleSearch_outcomes (st : SearchBar.State) :
  let query := Js.trim (SearchBar.searchQuery st) in
  let effects := SearchBar.handleSearch_effects isValidAddressFormat sdk st in
  let st' := SearchBar.handleSearch isValidAddressFormat sdk st in
  query <> "" ->
  SearchBar.isSearching st' = false /\
  ((SearchBar.navigationsOf effects = ["/account/" ++ query] /\
    SearchBar.sdkCallsOf effects = [SearchBar.GetAccount query] /\
    SearchBar.error st' = None /\ SearchBar.searchQuery st' = "") \/
   (SearchBar.navigationsOf effects = ["/tx/" ++ query] /\
    SearchBar.error st' = None /\ SearchBar.searchQuery st' = "") \/
   (SearchBar.navigationsOf effects = [] /\
    SearchBar.searchQuery st' = SearchBar.searchQuery st /\
    (SearchBar.error st' =
       Some "No account or transaction found with this identifier" \/
     SearchBar.error st' = Some "Error performing search"))) /\
  (SearchBar.sdkCallsOf effects = [SearchBar.GetTransactionByHash query] /\
   isValidAddressFormat query = false \/
   SearchBar.sdkCallsOf effects = [SearchBar.GetAccount query] /\
   isValidAddressFormat query = true \/
   SearchBar.sdkCallsOf effects =
     [SearchBar.GetAccount query; SearchBar.GetTransactionByHash query] /\
   isValidAddressFormat query = true).
Proof.
  intros query effects st' Hq. subst effects st'.
  unfold SearchBar.handleSearch, SearchBar.handleSearch_effects. fold query.
  apply String.eqb_neq in Hq. unfold Js.truthy. rewrite Hq. cbn [negb].
  unfold SearchBar.tryBlock, SearchBar.transactionLookup, SearchBar.catchBlock.
  destruct (isValidAddressFormat query);
    [destruct (SearchBar.getAccount sdk query) as [[a|]|e]|];
    try destruct (SearchBar.getTransactionByHash sdk query) as [[t|]|e'];
    cbn; intuition auto.
Qed.

(** White space around the query makes no difference to what
    [handleSearch] does. *)
Theorem handleSearch_ignores_surrounding_space (st : SearchBar.State) :
  SearchBar.handleSearch_effects isValidAddressFormat sdk st =
  SearchBar.handleSearch_effects isValidAddressFormat sdk
    {| SearchBar.searchQuery := Js.trim (SearchBar.searchQuery st);
       SearchBar.isSearching := SearchBar.isSearching st;
       SearchBar.error := SearchBar.error st |}.
Proof.
  unfold SearchBar.handleSearch_effects. cbn [SearchBar.searchQuery].
  now rewrite trim_idempotent.
Qed.

End SearchOutcomes.

Lemma handleSearch_outcomes_witness :
  SearchBar.isSearching (SearchBar.handleSearch (fun _ => true) accountOnlySdk addressQuery)
  = false.
Proof.
  apply (handleSearch_outcomes unit unit (fun _ => true) accountOnlySdk addressQuery).
  vm_compute. discriminate.
Defined.

(** ** The refresh cycle, whatever the SDK answers *)

(** A cycle that went past the guards ends with the three loading flags
    down, whatever the SDK answered, and it has called [getTransactions]
    with the store's limit and then either nothing more or the three ledger
    methods. *)
Theorem refreshData_always_settles
  (defaultLimit : nat) (sdk : Sdk) (c : Closure) (w : World) :
  passesGuards c ->
  let w' := refreshData defaultLimit sdk c w in
  h_isLoading (hook w') = false /\
  h_fetchRequested (hook w') = false /\
  isLoading (store w') = false /\
  currentLimit (store w') = currentLimit (store w) /\
  exists more,
    sdkCalls w' =
      (sdkCalls w ++
       GetTransactions (transactionLimit defaultLimit (store w)) :: more)%list /\
    (more = [] \/ more = [GetLatestBlockHeight; GetLatestEpoch; GetChainId]).
Proof.
  intros (Hi & Hl & Hf) w'. subst w'.
  unfold refreshData, refreshData_effects, refreshData_begin.
  rewrite Hi, Hl, Hf. cbn [negb orb].
  change (transactionLimit defaultLimit (act (SetLoading true) (store w)))
    with (transactionLimit defaultLimit (store w)).
  destruct (getTransactions sdk _) as [txs|e]; cbn [refreshData_afterTransactions].
  - destruct (promiseAll3 _ _ _ _) as [[[h ep] cid]|e];
      cbn; repeat split;
      exists [GetLatestBlockHeight; GetLatestEpoch; GetChainId];
      (split; [now repeat rewrite <- app_assoc|now right]).
  - cbn. repeat split. exists []. split; [reflexivity|now left].
Qed.

Lemma refreshData_always_settles_witness :
  isLoading (store (refreshData 25 healthySdk (render true (hook idleWorld)) idleWorld))
  = false.
Proof.
  apply (refreshData_always_settles 25 healthySdk (render true (hook idleWorld))
           idleWorld (conj eq_refl (conj eq_refl eq_refl))).
Defined.

(** A cycle in which every call fulfils stores the transactions and the
    three stats and bumps the update counter; it never touches the error
    field, so an error recorded by an earlier cycle stays. *)
Theorem refreshData_success_keeps_error
  (defaultLimit : nat) (sdk : Sdk) (c : Closure) (w : World)
  (txs : list Transaction) (h ep : Z) (cid : string) :
  passesGuards c ->
  getTransactions sdk (transactionLimit defaultLimit (store w)) = Fulfilled txs ->
  getLatestBlockHeight sdk = Fulfilled h ->
  getLatestEpoch sdk = Fulfilled ep ->
  getChainId sdk = Fulfilled cid ->
  let w' := refreshData defaultLimit sdk c w in
  transactions (store w') = txs /\
  stats (store w') =
    {| blockHeight := Some h; epoch := Some ep; chainId := Some cid |} /\
  updateCounter (store w') = S (updateCounter (store w)) /\
  error (store w') = error (store w).
Proof.
  intros (Hi & Hl & Hf) Htx Hh He Hc w'. subst w'.
  unfold refreshData, refreshData_effects, refreshData_begin.
  rewrite Hi, Hl, Hf. cbn [negb orb].
  change (transactionLimit defaultLimit (act (SetLoading true) (store w)))
    with (transactionLimit defaultLimit (store w)).
  rewrite Htx, Hh, He, Hc. destruct (ledgerSettleOrder sdk); cbn; repeat split.
Qed.

Lemma refreshData_success_keeps_error_witness :
  error (store (refreshData 25 healthySdk (render true (hook failedWorld)) failedWorld))
  = Some "Network Error".
Proof.
  apply (refreshData_success_keeps_error 25 healthySdk
           (render true (hook failedWorld)) failedWorld
           [sampleTransaction] 500000%Z 42%Z "1"
           (conj eq_refl (conj eq_refl eq_refl)) eq_refl eq_refl eq_refl eq_refl).
Defined.

Lemma refreshData_stats_rejected_witness :
  let w' := refreshData 25 noLedgerSdk (render true (hook idleWorld)) idleWorld in
  stats (store w') = stats (store idleWorld) /\
  transactions (store w') = [sampleTransaction] /\
  error (store w') = Some "timeout".
Proof.
  destruct (refreshData_stats_rejected 25 noLedgerSdk (render true (hook idleWorld))
              idleWorld [sampleTransaction] (ErrorObject "timeout")
              (conj eq_refl (conj eq_refl eq_refl)) eq_refl eq_refl)
    as (Hs & Ht & He & _).
  repeat split; assumption.
Defined.

Lemma refreshData_guard_with_fresh_closure_witness :
  refreshData_begin 25
    (render true (hook (inFlight 25 (render true (hook idleWorld)) idleWorld)))
    (store (inFlight 25 (render true (hook idleWorld)) idleWorld))
  = ([], None).
Proof.
  apply (refreshData_guard_with_fresh_closure 25 (render true (hook idleWorld))
           idleWorld true (conj eq_refl (conj eq_refl eq_refl))).
Defined.

(** ** The SDK provider *)

(** A call of [initializeSdk] that goes past its guard always ends with
    [isInitializing] off.  The error is [null] afterwards exactly when the
    client was built and answered [getLedgerInfo], and then the real SDK is
    set and initialised.  The mock flag is on only together with the mock
    SDK, [isInitialized] and a recorded error.  A failure without mock
    leaves [sdk] and [isInitialized] as they were. *)
Theorem initializeSdk_outcomes
  (env : SdkContext.Environment) (c : SdkContext.Closure) (st : SdkContext.State) :
  SdkContext.c_isInitializing c = false ->
  SdkContext.c_isInitialized c = false ->
  let st' := SdkContext.initializeSdk env c st in
  SdkContext.isInitializing st' = false /\
  (SdkContext.error st' = None <->
   SdkContext.construction env = None /\
   exists u, SdkContext.ledgerInfo env = Fulfilled u) /\
  (SdkContext.error st' = None ->
   SdkContext.sdk st' = Some SdkContext.RealSdk /\
   SdkContext.isInitialized st' = true /\
   SdkContext.isUsingMockData st' = false) /\
  (SdkContext.isUsingMockData st' = true ->
   SdkContext.sdk st' = Some SdkContext.MockSdk /\
   SdkContext.isInitialized st' = true /\
   SdkContext.error st' <> None /\
   SdkContext.debugMode env = true) /\
  (SdkContext.error st' <> None ->
   SdkContext.isUsingMockData st' = false ->
   SdkContext.sdk st' = SdkContext.sdk st /\
   SdkContext.isInitialized st' = SdkContext.isInitialized st).
Proof.
  intros Hc1 Hc2 st'. subst st'.
  unfold SdkContext.initializeSdk, SdkContext.initializeSdk_effects,
    SdkContext.catchClause.
  rewrite Hc1, Hc2. cbn [orb].
  destruct (SdkContext.construction env) as [err|] eqn:Hcons;
    [|destruct (SdkContext.ledgerInfo env) as [u|err] eqn:Hled];
    try (destruct (SdkContext.debugMode env) eqn:Hdbg;
         [destruct (SdkContext.mockCreation env) as [mockErr|]|]);
    cbn; repeat split; try congruence; try discriminate; eauto;
    try (intros [? [? ?]]; congruence); try (intros [? ?]; congruence).
Qed.

Lemma initializeSdk_outcomes_witness :
  SdkContext.isInitializing
    (SdkContext.initializeSdk unreachableNode (SdkContext.render freshProvider)
       freshProvider)
  = false.
Proof.
  apply (initializeSdk_outcomes unreachableNode (SdkContext.render freshProvider)
           freshProvider eq_refl eq_refl).
Defined.

(** [isInitialized] is on exactly when an SDK object is set: [initializeSdk]
    and [reinitialize] keep this, through whatever closure they are called
    and whatever the client does. *)
Theorem provider_initialized_iff_sdk
  (env : SdkContext.Environment) (c : SdkContext.Closure) (st : SdkContext.State) :
  (SdkContext.isInitialized st = true <-> SdkContext.sdk st <> None) ->
  let st1 := SdkContext.initializeSdk env c st in
  let st2 := SdkContext.reinitialize env c st in
  (SdkContext.isInitialized st1 = true <-> SdkContext.sdk st1 <> None) /\
  (SdkContext.isInitialized st2 = true <-> SdkContext.sdk st2 <> None).
Proof.
  intros Hinv st1 st2. subst st1 st2.
  unfold SdkContext.reinitialize, SdkContext.reinitialize_effects,
    SdkContext.initializeSdk, SdkContext.initializeSdk_effects,
    SdkContext.catchClause.
  destruct (SdkContext.c_isInitializing c || SdkContext.c_isInitialized c).
  { cbn. split; [exact Hinv|]. split; [discriminate|congruence]. }
  destruct (SdkContext.construction env) as [err|];
    [|destruct (SdkContext.ledgerInfo env) as [u|err]];
    try (destruct (SdkContext.debugMode env);
         [destruct (SdkContext.mockCreation env) as [mockErr|]|]);
    cbn; repeat split; try exact (proj1 Hinv); try exact (proj2 Hinv);
    congruence.
Qed.

Lemma provider_initialized_iff_sdk_witness :
  SdkContext.isInitialized
    (SdkContext.initializeSdk unreachableNode (SdkContext.render freshProvider)
       freshProvider) = true <->
  SdkContext.sdk
    (SdkContext.initializeSdk unreachableNode (SdkContext.render freshProvider)
       freshProvider) <> None.
Proof.
  apply (provider_initialized_iff_sdk unreachableNode
           (SdkContext.render freshProvider) freshProvider).
  split; [discriminate|intros H; now elim H].
Defined.

(** [reinitialize] called from a render in which the SDK is initialised
    takes the SDK away and builds no client: the [initializeSdk] it calls
    still sees [isInitialized] on and returns at its guard.  When no error
    was recorded, no retry is scheduled either. *)
Theorem reinitialize_from_initialized
  (env : SdkContext.Environment) (st : SdkContext.State) :
  SdkContext.isInitialized st = true ->
  let st' := SdkContext.reinitialize env (SdkContext.render st) st in
  SdkContext.sdk st' = None /\
  SdkContext.isInitialized st' = false /\
  SdkContext.constructions
    (SdkContext.reinitialize_effects env (SdkContext.render st)) = 0 /\
  SdkContext.error st' = SdkContext.error st /\
  (SdkContext.error st = None ->
   forall retryOnFailure, SdkContext.schedulesRetry retryOnFailure st' = false).
Proof.
  intros Hi st'. subst st'.
  unfold SdkContext.reinitialize, SdkContext.reinitialize_effects,
    SdkContext.initializeSdk_effects, SdkContext.render.
  cbn [SdkContext.c_isInitializing SdkContext.c_isInitialized].
  rewrite Hi, orb_true_r. cbn. repeat split.
  intros He r. unfold SdkContext.schedulesRetry. cbn. rewrite He.
  now rewrite andb_false_r.
Qed.

Lemma reinitialize_from_initialized_witness :
  SdkContext.sdk
    (SdkContext.reinitialize unreachableNode (SdkContext.render connectedProvider)
       connectedProvider)
  = None.
Proof.
  apply (reinitialize_from_initialized unreachableNode connectedProvider eq_refl).
Defined.

Section SdkWrappers.

Variables RawTransaction TransactionDetail AccountData : Type.
Variable toDetail : RawTransaction -> option TransactionDetail.
Variable normalizeTransactionHash : string -> option string.
Variable clientGetTransactionByHash : string -> Settled (option RawTransaction).

(** [getTransactionByHash] of the SDK object never rejects.  When the hash
    cannot be normalised it answers [null] without asking the client.
    Otherwise it asks the client exactly once, for the normalised hash; a
    rejection and an empty answer become [null], and a transaction becomes
    the object built from it, or [null] when building it throws. *)
Theorem getTransactionByHash_never_rejects (hash : string) :
  let answer :=
    SdkContext.getTransactionByHash RawTransaction TransactionDetail toDetail
      normalizeTransactionHash clientGetTransactionByHash hash in
  (exists result, fst answer = Fulfilled result) /\
  (Js.orNull (normalizeTransactionHash hash) = None ->
   answer = (Fulfilled None, [])) /\
  (forall h,
     Js.orNull (normalizeTransactionHash hash) = Some h ->
     normalizeTransactionHash hash = Some h /\
     snd answer = [h] /\
     (forall e, clientGetTransactionByHash h = Rejected e ->
                fst answer = Fulfilled None) /\
     (clientGetTransactionByHash h = Fulfilled None ->
      fst answer = Fulfilled None) /\
     (forall tx, clientGetTransactionByHash h = Fulfilled (Some tx) ->
                 fst answer = Fulfilled (toDetail tx))).
Proof.
  intros answer. subst answer. unfold SdkContext.getTransactionByHash.
  destruct (Js.orNull (normalizeTransactionHash hash)) as [h|] eqn:Hn.
  - cbn [fst snd]. split; [|split].
    + destruct (clientGetTransactionByHash h) as [[tx|]|e]; eauto.
    + discriminate.
    + intros h' Hh. injection Hh as <-.
      split; [now apply orNull_some|].
      split; [reflexivity|].
      split; [|split].
      * intros e ->. reflexivity.
      * intros ->. reflexivity.
      * intros tx ->. reflexivity.
  - cbn. split; [eauto|]. split; [reflexivity|]. discriminate.
Qed.

Variable isValidAddressFormat : string -> bool.
Variable getAccount : string -> Settled (option AccountData).

(** With the [getTransactionByHash] of the SDK provider behind the search
    bar, a query that is neither in address format nor a hash that can be
    normalised ends with the not-found message, and no request reaches the
    client. *)
Theorem handleSearch_malformed_query_makes_no_request (st : SearchBar.State) :
  let query := Js.trim (SearchBar.searchQuery st) in
  let lookup :=
    SdkContext.getTransactionByHash RawTransaction TransactionDetail toDetail
      normalizeTransactionHash clientGetTransactionByHash in
  let sdk :=
    {| SearchBar.getAccount := getAccount;
       SearchBar.getTransactionByHash := fun hash => fst (lookup hash) |} in
  query <> "" ->
  isValidAddressFormat query = false ->
  Js.orNull (normalizeTransactionHash query) = None ->
  SearchBar.error (SearchBar.handleSearch isValidAddressFormat sdk st) =
    Some "No account or transaction found with this identifier" /\
  SearchBar.sdkCallsOf (SearchBar.handleSearch_effects isValidAddressFormat sdk st) =
    [SearchBar.GetTransactionByHash query] /\
  snd (lookup query) = [] /\
  SearchBar.navigationsOf (SearchBar.handleSearch_effects isValidAddressFormat sdk st) = [].
Proof.
  intros query lookup sdk Hq Hv Hn. subst lookup sdk.
  unfold SearchBar.handleSearch, SearchBar.handleSearch_effects. fold query.
  apply String.eqb_neq in Hq. unfold Js.truthy. rewrite Hq. cbn [negb].
  unfold SearchBar.tryBlock, SearchBar.transactionLookup. rewrite Hv.
  cbn [SearchBar.getTransactionByHash].
  unfold SdkContext.getTransactionByHash. rewrite Hn. cbn. repeat split.
Qed.

End SdkWrappers.

Lemma handleSearch_malformed_query_makes_no_request_witness :
  SearchBar.error
    (SearchBar.handleSearch (fun _ => false)
       {| SearchBar.getAccount := fun _ => @Rejected (option unit) OtherValue;
          SearchBar.getTransactionByHash := fun hash =>
            fst (SdkContext.getTransactionByHash unit unit (fun _ => None)
                   (fun _ => None) (fun _ => Rejected OtherValue) hash) |}
       {| SearchBar.searchQuery := "hello world"; SearchBar.isSearching := false;
          SearchBar.error := None |})
  = Some "No account or transaction found with this identifier".
Proof.
  apply (handleSearch_malformed_query_makes_no_request unit unit unit
           (fun _ => None) (fun _ => None) (fun _ => Rejected OtherValue)
           (fun _ => false) (fun _ => Rejected OtherValue)
           {| SearchBar.searchQuery := "hello world"; SearchBar.isSearching := false;
              SearchBar.error := None |}).
  - vm_compute. discriminate.
  - reflexivity.
  - reflexivity.
Defined.

(** ** Polling *)

Lemma stopPolling_tidy (st : Polling.State) :
  Polling.tidy st ->
  Polling.tidy (Polling.stopPolling st) /\
  Polling.liveIntervals (Polling.stopPolling st) = [] /\
  Polling.refreshTimerRef (Polling.stopPolling st) = None.
Proof.
  unfold Polling.tidy, Polling.stopPolling.
  destruct (Polling.refreshTimerRef st) as [timer|] eqn:Href; intros H.
  - cbn. rewrite H. cbn. rewrite Nat.eqb_refl. now repeat split.
  - rewrite Href. now repeat split.
Qed.

Lemma step_tidy (st : Polling.State) (e : Polling.Event) :
  Polling.tidy st -> Polling.tidy (Polling.step st e).
Proof.
  intros H. destruct e as [isFocused hasAddress|]; cbn [Polling.step].
  - destruct (isFocused && hasAddress) eqn:Hf; [|now apply stopPolling_tidy].
    unfold Polling.startPolling, Polling.tidy in *.
    destruct (Polling.refreshTimerRef st) as [timer|] eqn:Href.
    + now rewrite Href.
    + rewrite Hf. cbn. now rewrite H.
  - now apply stopPolling_tidy.
Qed.

(** However often the polling effect and its cleanup run, at most one
    interval is set, the one the ref keeps; and [stopPolling] leaves none,
    so leaving the screen leaks no interval. *)
Theorem polling_keeps_one_interval (firstTimer : nat) (events : list Polling.Event) :
  let st := fold_left Polling.step events (Polling.mountedScreen firstTimer) in
  Polling.tidy st /\
  List.length (Polling.liveIntervals st) <= 1 /\
  Polling.liveIntervals (Polling.stopPolling st) = [] /\
  Polling.refreshTimerRef (Polling.stopPolling st) = None.
Proof.
  intros st.
  assert (Htidy : Polling.tidy st).
  { subst st. assert (H0 : Polling.tidy (Polling.mountedScreen firstTimer)) by reflexivity.
    revert H0. generalize (Polling.mountedScreen firstTimer).
    induction events as [|e events IH]; intros s Hs; [exact Hs|].
    cbn [fold_left]. apply IH. now apply step_tidy. }
  split; [exact Htidy|]. split; [|now apply stopPolling_tidy].
  rewrite Htidy. destruct (Polling.refreshTimerRef st); simpl; lia.
Qed.

(** ** Observables *)

Section Unwrapping.

Variable Primitive : Type.

Lemma unwrapObservable_unwrapped :
  forall value : Observable.Value Primitive,
    Observable.unwrapped (Observable.unwrapObservable value) = true.
Proof.
  fix IH 1. intros [ | | p | [inner|] | items | fields]; cbn; try reflexivity.
  - apply IH.
  - induction items as [|x items IHl]; cbn; [reflexivity|].
    now rewrite IH, IHl.
  - induction fields as [|[key v] fields IHl]; cbn; [reflexivity|].
    now rewrite IH, IHl.
Qed.

Lemma unwrapObservable_fixed :
  forall value : Observable.Value Primitive,
    Observable.unwrapped value = true -> Observable.unwrapObservable value = value.
Proof.
  fix IH 1. intros [ | | p | [inner|] | items | fields]; cbn; try reflexivity.
  - discriminate.
  - intros H. f_equal. induction items as [|x items IHl]; cbn in *; [reflexivity|].
    apply andb_true_iff in H as [Hx Hl]. now rewrite IH, IHl.
  - intros H. f_equal. induction fields as [|[key v] fields IHl]; cbn in *; [reflexivity|].
    apply andb_true_iff in H as [Hx Hl]. now rewrite IH, IHl.
Qed.

(** [unwrapObservable] leaves no observable whose [get] answers, at any
    depth; it returns data without such observables as it is; so unwrapping
    twice is unwrapping once. *)
Theorem unwrapObservable_settles (value : Observable.Value Primitive) :
  Observable.unwrapped (Observable.unwrapObservable value) = true /\
  (Observable.unwrapped value = true -> Observable.unwrapObservable value = value) /\
  Observable.unwrapObservable (Observable.unwrapObservable value) =
    Observable.unwrapObservable value.
Proof.
  split; [apply unwrapObservable_unwrapped|].
  split; [apply unwrapObservable_fixed|].
  apply unwrapObservable_fixed, unwrapObservable_unwrapped.
Qed.

End Unwrapping.

(** ** Transaction labels *)

Lemma endsWith_suffix (base suffix : string) : endsWith (base ++ suffix) suffix = true.
Proof.
  induction base as [|c base IH]; cbn [append endsWith].
  - destruct suffix; cbn [endsWith]; now rewrite String.eqb_refl.
  - rewrite IH. apply orb_true_r.
Qed.

Lemma removeFirst_suffix (base : string) :
  Js.includes base "_t" = false ->
  removeFirst "_transaction" (base ++ "_transaction") = base.
Proof.
  induction base as [|c base IH]; intros H; [reflexivity|].
  cbn [Js.includes] in H. apply orb_false_iff in H as [Hhere Hrest].
  change (String c base ++ "_transaction") with (String c (base ++ "_transaction")).
  cbn [removeFirst].
  replace (Js.startsWith (String c (base ++ "_transaction")) "_transaction")
    with false.
  - now rewrite IH.
  - symmetry. cbn [Js.startsWith] in *.
    destruct (Ascii.eqb "_" c); cbn [andb] in *; [|reflexivity].
    destruct base as [|d base]; [reflexivity|].
    cbn [append]. destruct (Ascii.eqb "t" d); [discriminate|reflexivity].
Qed.

(** A label is the type itself unless the type ends in ["_transaction"];
    then the suffix is taken off, provided ["_t"] does not occur before
    it. *)
Theorem getFunctionLabel_strips_suffix :
  (forall type, endsWith type "_transaction" = false -> getFunctionLabel type = type) /\
  (forall base,
     Js.includes base "_t" = false ->
     getFunctionLabel (base ++ "_transaction") = base).
Proof.
  split.
  - intros type H. unfold getFunctionLabel. now rewrite H.
  - intros base H. unfold getFunctionLabel.
    rewrite endsWith_suffix. now apply removeFirst_suffix.
Qed.

(** The first occurrence is what [replace] takes out, which need not be the
    suffix. *)
Example getFunctionLabel_first_occurrence :
  getFunctionLabel "a_transaction_b_transaction" = "a_b_transaction".
Proof.
  reflexivity.
Qed.

(** ** Border and category *)

(** The border of a resource card and the category of the same type string
    follow the same tests, but the border tries the Account test last and
    the category tries it first: they name the same category exactly when
    the type does not pass both the Account test and one of the others. *)
Theorem borderColorOf_agrees_with_category (type : string) :
  categoryOfBorder (borderColorOf type) = categoryOf type <->
  ~ (accountRule type = true /\ otherRules type = true).
Proof.
  unfold borderColorOf, categoryOf, accountRule, otherRules.
  set (l := Js.toLowerCase type).
  set (account := Js.includes l "receipts" || Js.includes l "fee_maker" ||
                  (Js.includes l "account" && negb (Js.includes l "pledge_accounts"))).
  set (assets := Js.includes l "coin" || Js.includes l "wallet").
  set (validating := Js.includes l "stake" || Js.includes l "validator" ||
                     Js.includes l "jail" || Js.includes l "proof_of_fee").
  set (social := Js.includes l "pledge" || Js.includes l "vouch" ||
                 Js.includes l "ancestry").
  destruct account, assets, validating, social; cbn;
    first [ split; [intros _ [H1 H2]; discriminate | reflexivity]
          | split; [intros H; discriminate H
                   | intros H; exfalso; apply H; split; reflexivity] ].
Qed.
